(** * Resume to Job Matcher: field extraction, classification and dispatch

    A shallow embedding of [match_my_resume.py].  The Streamlit page layout,
    the charts and the spreadsheet export are left out; what is embedded is

    - the [str] methods and the part of [re] the script relies on,
    - [extract_text_from_pdf], [extract_field], [extract_experience],
      [determine_title], the per-document record and the selected/rejected
      split,
    - [send_email] and the handler of the "Send Emails" button, as explicit
      state passing over a transport and a log of user-visible events.

    Text model.  A Python [str] is embedded as a [string] whose characters
    are the code points 0..255.  On that range the character tables below
    ([isspace], [isdecimal], [isalnum], [tolower], ...) agree with CPython's
    Unicode database; code points above 255 are outside the model. *)

From Stdlib Require Import Bool Arith NArith ZArith Lia List.
From Stdlib Require Import Ascii String.
Import ListNotations.

Local Open Scope string_scope.

(** ** Characters *)

Module Chr.

Definition code (c : ascii) : N := N_of_ascii c.

Definition between (lo hi n : N) : bool := (lo <=? n)%N && (n <=? hi)%N.

(** [str.isspace] on one character, which is also [\s] of a [str] pattern:
    TAB..CR, FS..US and SPACE, NEL, NBSP. *)
Definition isspace (c : ascii) : bool :=
  let n := code c in
  between 9 13 n || between 28 32 n || (n =? 133)%N || (n =? 160)%N.

(** [\d] of a [str] pattern ([str.isdecimal]): only 0..9 below 256. *)
Definition isdecimal (c : ascii) : bool := between 48 57 (code c).

Definition isupper (c : ascii) : bool :=
  let n := code c in
  between 65 90 n || (between 192 222 n && negb (n =? 215)%N).

(** Lower-case letters that have an upper-case partner below 256. *)
Definition islower_paired (c : ascii) : bool :=
  let n := code c in
  between 97 122 n || (between 224 254 n && negb (n =? 247)%N).

(** Cased characters, as [str.title] sees them: the letters, and the
    lower-case characters without a partner below 256 (feminine and masculine
    ordinal, micro sign, sharp s, y with diaeresis). *)
Definition iscased (c : ascii) : bool :=
  let n := code c in
  isupper c || islower_paired c
  || (n =? 170)%N || (n =? 181)%N || (n =? 186)%N || (n =? 223)%N || (n =? 255)%N.

(** [str.isalnum] on one character. *)
Definition isalnum (c : ascii) : bool :=
  let n := code c in
  isdecimal c || iscased c
  || (n =? 178)%N || (n =? 179)%N || (n =? 185)%N || between 188 190 n.

(** [\w] of a [str] pattern: alphanumeric or underscore. *)
Definition isword (c : ascii) : bool := isalnum c || (code c =? 95)%N.

Definition tolower (c : ascii) : ascii :=
  if isupper c then ascii_of_N (code c + 32) else c.

(** Title-case (here: upper-case) of one character.  For the micro sign,
    sharp s and y with diaeresis Python's result lies outside the range of the
    model (U+039C, "Ss", U+0178); the model leaves these three as they are,
    and general statements about title-cased names assume [title_safe]. *)
Definition totitle (c : ascii) : ascii :=
  if islower_paired c then ascii_of_N (code c - 32) else c.

Definition newline : ascii := "010"%char.

End Chr.

(** ** The [str] methods the script calls *)

Module Str.

Fixpoint lower (s : string) : string :=
  match s with
  | EmptyString => EmptyString
  | String c s' => String (Chr.tolower c) (lower s')
  end.

(** The longest prefix of characters in [p], and what follows it. *)
Fixpoint take_while (p : ascii -> bool) (s : string) : string :=
  match s with
  | EmptyString => EmptyString
  | String c s' => if p c then String c (take_while p s') else EmptyString
  end.

Fixpoint drop_while (p : ascii -> bool) (s : string) : string :=
  match s with
  | EmptyString => EmptyString
  | String c s' => if p c then drop_while p s' else s
  end.

Definition lstrip (s : string) : string := drop_while Chr.isspace s.

Fixpoint rstrip (s : string) : string :=
  match s with
  | EmptyString => EmptyString
  | String c s' =>
      match rstrip s' with
      | EmptyString => if Chr.isspace c then EmptyString else String c EmptyString
      | r => String c r
      end
  end.

(** [s.strip()] *)
Definition strip (s : string) : string := rstrip (lstrip s).

(** Python truthiness of a [str]: [not s] is [is_empty s]. *)
Definition is_empty (s : string) : bool :=
  match s with EmptyString => true | _ => false end.

(** [s.startswith(p)]; [Some rest] is what follows the prefix. *)
Fixpoint strip_prefix (p s : string) : option string :=
  match p, s with
  | EmptyString, _ => Some s
  | String a p', String b s' => if (a =? b)%char then strip_prefix p' s' else None
  | String _ _, EmptyString => None
  end.

(** [s.replace(old, new)] for a non-empty [old]: occurrences are replaced from
    left to right and do not overlap.  [skip] counts the characters of an
    occurrence still to be dropped. *)
Fixpoint replace_from (old new : string) (skip : nat) (s : string) : string :=
  match s with
  | EmptyString => EmptyString
  | String c s' =>
      match skip with
      | S n => replace_from old new n s'
      | O =>
          match strip_prefix old s with
          | Some _ => new ++ replace_from old new (String.length old - 1) s'
          | None => String c (replace_from old new 0 s')
          end
      end
  end.

(** With an empty [old] Python puts [new] before every character and at the
    end. *)
Fixpoint intersperse (new s : string) : string :=
  match s with
  | EmptyString => new
  | String c s' => new ++ String c (intersperse new s')
  end.

Definition replace (s old new : string) : string :=
  match old with
  | EmptyString => intersperse new s
  | _ => replace_from old new 0 s
  end.

(** [s.title()]: a character that follows a cased character is lower-cased,
    any other is title-cased. *)
Fixpoint title_from (prev_cased : bool) (s : string) : string :=
  match s with
  | EmptyString => EmptyString
  | String c s' =>
      String (if prev_cased then Chr.tolower c else Chr.totitle c)
             (title_from (Chr.iscased c) s')
  end.

Definition title (s : string) : string := title_from false s.

(** The number a string of decimal digits writes: what [int(s)] returns when
    it returns.  CPython refuses, by default, a string of more than 4300
    digits; [int_checked] below adds that limit. *)
Fixpoint int_from (acc : Z) (s : string) : Z :=
  match s with
  | EmptyString => acc
  | String c s' => int_from (10 * acc + (Z.of_N (Chr.code c) - 48)) s'
  end.

Definition int (digits : string) : Z := int_from 0 digits.

End Str.

(** ** The fragment of [re] the script uses

    The script's patterns are built from literals, the classes [\s], [\d]
    and [.], greedy [*] and [+] on a class, alternation, one capturing group
    and [\b].  [exec] is the backtracking matcher of [re] on that fragment,
    in continuation-passing style: alternatives are tried left to right and a
    greedy repetition gives characters back one at a time. *)

Module Re.

Inductive cclass : Type :=
| Space    (* \s *)
| Digit    (* \d *)
| Dot.     (* .  (no DOTALL) *)

Definition in_class (cl : cclass) (c : ascii) : bool :=
  match cl with
  | Space => Chr.isspace c
  | Digit => Chr.isdecimal c
  | Dot => negb (c =? Chr.newline)%char
  end.

Inductive regex : Type :=
| Empty
| Lit (c : ascii)
| Cls (cl : cclass)
| Cat (r1 r2 : regex)
| Alt (r1 r2 : regex)
| Star (cl : cclass)
| Grp (r : regex)      (* group 1 *)
| WordB.               (* \b *)

Definition Plus (cl : cclass) : regex := Cat (Cls cl) (Star cl).

(** A literal run of characters. *)
Fixpoint lits (s : string) : regex :=
  match s with
  | EmptyString => Empty
  | String c s' => Cat (Lit c) (lits s')
  end.

(** [a|b|...] in the order written. *)
Fixpoint alts (l : list string) : regex :=
  match l with
  | [] => Empty
  | [s] => lits s
  | s :: l' => Alt (lits s) (alts l')
  end.

(** The text consumed between two positions of one scan. *)
Definition consumed (s s' : string) : string :=
  substring 0 (String.length s - String.length s') s.

Definition word_at (s : string) : bool :=
  match s with String c _ => Chr.isword c | EmptyString => false end.

Definition word_before (prev : option ascii) : bool :=
  match prev with Some c => Chr.isword c | None => false end.

(** [\b]: exactly one of the two neighbours is a word character. *)
Definition at_boundary (prev : option ascii) (s : string) : bool :=
  xorb (word_before prev) (word_at s).

Section Exec.

(** [re.IGNORECASE] *)
Variable ignorecase : bool.

Definition lit_eq (c x : ascii) : bool :=
  if ignorecase then (Chr.tolower x =? Chr.tolower c)%char else (x =? c)%char.

Context {A : Type}.

(** A position is the character before it (for [\b]) and the text after it. *)
Fixpoint star (cl : cclass) (prev : option ascii) (s : string)
         (k : option ascii -> string -> option A) : option A :=
  match s with
  | String x s' =>
      if in_class cl x then
        match star cl (Some x) s' k with
        | Some a => Some a
        | None => k prev s
        end
      else k prev s
  | EmptyString => k prev s
  end.

Fixpoint exec (r : regex) (prev : option ascii) (s : string) (g : option string)
         (k : option ascii -> string -> option string -> option A) : option A :=
  match r with
  | Empty => k prev s g
  | Lit c =>
      match s with
      | String x s' => if lit_eq c x then k (Some x) s' g else None
      | EmptyString => None
      end
  | Cls cl =>
      match s with
      | String x s' => if in_class cl x then k (Some x) s' g else None
      | EmptyString => None
      end
  | Cat r1 r2 => exec r1 prev s g (fun p' s' g' => exec r2 p' s' g' k)
  | Alt r1 r2 =>
      match exec r1 prev s g k with
      | Some a => Some a
      | None => exec r2 prev s g k
      end
  | Star cl => star cl prev s (fun p' s' => k p' s' g)
  | Grp r1 => exec r1 prev s g (fun p' s' _ => k p' s' (Some (consumed s s')))
  | WordB => if at_boundary prev s then k prev s g else None
  end.

End Exec.

(** A match object, as far as the script looks at it. *)
Record Match : Type := { group1 : option string }.

(** A continuation that does not look at the character before the position
    (nothing after the point concerned is a [\b]). *)
Definition blind {A : Type} (k : option ascii -> string -> option A) : Prop :=
  forall p p' s, k p s = k p' s.

(** The whole pattern has matched. *)
Definition finish (_ : option ascii) (_ : string) (g : option string) : option Match :=
  Some {| group1 := g |}.

(** [re.match] at one position. *)
Definition match_at (ignorecase : bool) (r : regex) (prev : option ascii) (s : string)
  : option Match :=
  exec ignorecase r prev s None finish.

(** [re.search]: the first position, from the left, where the pattern matches. *)
Fixpoint search_from (ignorecase : bool) (r : regex) (prev : option ascii) (s : string)
  : option Match :=
  match match_at ignorecase r prev s with
  | Some m => Some m
  | None =>
      match s with
      | String x s' => search_from ignorecase r (Some x) s'
      | EmptyString => None
      end
  end.

Definition search (ignorecase : bool) (r : regex) (s : string) : option Match :=
  search_from ignorecase r None s.

(** Truthiness of the result of [re.search]. *)
Definition found (m : option Match) : bool :=
  match m with Some _ => true | None => false end.

End Re.

(** ** The script *)

Import Re.

(** [extract_text_from_pdf].  A document either fails to open or has pages;
    reading a page gives its text or fails.  The text is accumulated page by
    page, and the [except] clause reports the error and keeps what was
    accumulated. *)
Inductive pdf : Type :=
| Unreadable
| Pages (pages : list (option string)).

Fixpoint read_pages (text : string) (pages : list (option string)) : string * bool :=
  match pages with
  | [] => (text, true)
  | Some t :: rest => read_pages (text ++ t) rest
  | None :: _ => (text, false)
  end.

(** The text, and whether [st.error] was called. *)
Definition extract_text_from_pdf_reporting (uploaded_pdf : pdf) : string * bool :=
  match uploaded_pdf with
  | Unreadable => (EmptyString, true)
  | Pages pages => let '(text, ok) := read_pages EmptyString pages in (text, negb ok)
  end.

Definition extract_text_from_pdf (uploaded_pdf : pdf) : string :=
  fst (extract_text_from_pdf_reporting uploaded_pdf).

(** Characters with a meaning of their own in a pattern.  [extract_field]
    pastes the field name into its pattern as it is, so [re] reads such a
    character in a name as pattern syntax.  The embedding follows [re] for
    names made of ordinary characters (all four names the script passes are)
    and of the wildcard [.]; names with other metacharacters are outside it,
    and the statements about arbitrary names assume [plain_label]. *)
Definition is_meta (c : ascii) : bool :=
  existsb (fun m => (c =? m)%char)
          (list_ascii_of_string "\.^$*+?{}[]()|").

Fixpoint plain_label (s : string) : bool :=
  match s with
  | EmptyString => true
  | String c s' => negb (is_meta c) && plain_label s'
  end.

(** The field name as it stands in the pattern. *)
Fixpoint label_pattern (field_name : string) : regex :=
  match field_name with
  | EmptyString => Empty
  | String c s' =>
      Cat (if (c =? ".")%char then Cls Dot else Lit c) (label_pattern s')
  end.

(** The pattern of [extract_field]: the field name, a colon, [\s*], and
    group 1 holding a greedy run of [.]. *)
Definition field_pattern (field_name : string) : regex :=
  Cat (label_pattern field_name) (Cat (Lit ":") (Cat (Star Space) (Grp (Star Dot)))).

(** [match.group(1)]: group 1 takes part in every match of the two patterns
    that read it, so the [None] case (where Python would raise on [.strip()])
    does not arise; see [field_pattern_group] and [experience_pattern_group]. *)
Definition group_text (m : Match) : string :=
  match group1 m with Some g => g | None => EmptyString end.

Definition extract_field (text field_name : string) : string :=
  match search true (field_pattern field_name) text with
  | Some m => Str.strip (group_text m)
  | None => EmptyString
  end.

(** The pattern of [extract_experience]: the literal experience_years, a
    colon, [\s*], and group 1 holding [\d+]. *)
Definition experience_pattern : regex :=
  Cat (lits "experience_years") (Cat (Lit ":") (Cat (Star Space) (Grp (Plus Digit)))).

(** The integer [extract_experience] returns; [extract_experience_checked]
    below adds the case where [int] raises instead. *)
Definition extract_experience (text : string) : Z :=
  match search true experience_pattern text with
  | Some m => Str.int (group_text m)
  | None => 0%Z
  end.

(** The seven patterns of [determine_title], each [\b(...)\b]. *)
Definition keyword_pattern (keywords : list string) : regex :=
  Cat WordB (Cat (Grp (alts keywords)) WordB).

Definition data_science_terms : list string :=
  ["data science"; "pandas"; "matplotlib"; "data analyst"].
Definition ml_terms : list string :=
  ["machine learning"; "regression"; "classification"; "sklearn"].
Definition full_stack_terms : list string :=
  ["full stack"; "react"; "node.js"; "frontend"; "backend"].
Definition web_design_terms : list string :=
  ["web design"; "html"; "css"; "javascript"; "web designer"].
Definition ai_terms : list string :=
  ["artificial intelligence"; "deep learning"].
Definition ui_ux_terms : list string :=
  ["ui/ux"; "figma"; "adobe xd"; "user interface"; "user experience"].
Definition game_terms : list string :=
  ["game dev"; "unity"; "unreal"; "game design"; "game developer"].

(** [re.search(pattern, combined)] used as a condition (no flags). *)
Definition mentions (keywords : list string) (combined : string) : bool :=
  found (search false (keyword_pattern keywords) combined).

(** The two texts joined by one space, then [.lower()]. *)
Definition combined_text (skills_text projects_text : string) : string :=
  Str.lower (skills_text ++ " " ++ projects_text).

Definition determine_title (skills_text projects_text : string) : string :=
  let combined := combined_text skills_text projects_text in
  if mentions data_science_terms combined then "Data Scientist"
  else if mentions ml_terms combined then "Machine Learning Engineer"
  else if mentions full_stack_terms combined then "Full Stack Developer"
  else if mentions web_design_terms combined then "Web Designer"
  else if mentions ai_terms combined then "AI Engineer"
  else if mentions ui_ux_terms combined then "UI/UX Designer"
  else if mentions game_terms combined then "Game Designer"
  else "Unknown".

(** *** One record per uploaded document *)

Record upload : Type := { file_name : string; content : pdf }.

(** The dict [resume_data], with the key [resume_title] added after the
    others. *)
Record resume : Type := {
  name : string;
  resume_skills : string;
  projects : string;
  experience_years : Z;
  email : string;
  resume_title : string
}.

(** Python's [x or y] on two [str]. *)
Definition or_else (x y : string) : string :=
  if Str.is_empty x then y else x.

(** The file name with every .pdf taken out by [replace], then [.title()]. *)
Definition name_from_file (file_name : string) : string :=
  Str.title (Str.replace file_name ".pdf" EmptyString).

Definition resume_data (uploaded_file : upload) : resume :=
  let resume_text := extract_text_from_pdf (content uploaded_file) in
  let skills := extract_field resume_text "resume_skills" in
  let projs := extract_field resume_text "Projects" in
  {| name := or_else (extract_field resume_text "Name")
                     (name_from_file (file_name uploaded_file));
     resume_skills := skills;
     projects := projs;
     experience_years := extract_experience resume_text;
     email := extract_field resume_text "Email";
     resume_title := determine_title skills projs |}.

Definition all_resume_data (uploaded_files : list upload) : list resume :=
  map resume_data uploaded_files.

Definition is_unknown (r : resume) : bool := (resume_title r =? "Unknown")%string.

(** resume_df[resume_df["resume_title"] != "Unknown"] and its complement:
    boolean masks keep the rows in their order. *)
Definition selected_df (resume_df : list resume) : list resume :=
  filter (fun r => negb (is_unknown r)) resume_df.

Definition rejected_df (resume_df : list resume) : list resume :=
  filter is_unknown resume_df.

(** *** Sending the e-mails *)

(** st.secrets.get("EMAIL"), st.secrets.get("PASSWORD") on a secrets store
    that exists; either key may be absent from it.  The run without any
    secrets store is [send_emails_run] below. *)
Record secrets : Type := { EMAIL : option string; PASSWORD : option string }.

(** [not v] for a secret: missing or empty. *)
Definition missing (v : option string) : bool :=
  match v with None => true | Some s => Str.is_empty s end.

(** The two fixed texts.  The subject and the body are determined by the
    constructor and, for the first, by the name and the title of the row. *)
Inductive mail_text : Type :=
| Congratulations (name title : string)
| ApplicationUpdate.

Record message : Type := {
  msg_from : option string;
  msg_to : string;
  msg_text : mail_text
}.

(** What the user and the mail server see of a run of the handler. *)
Inductive event : Type :=
| CredentialsError                      (* st.error in send_email *)
| Attempt (m : message) (ok : bool)     (* one SMTP session; ok = it did not raise *)
| SendWarning (recipient : string)      (* st.warning in send_email *)
| Summary (selected_sent rejected_sent : nat).  (* the closing st.success *)

Definition is_attempt (e : event) : bool :=
  match e with Attempt _ _ => true | _ => false end.

Definition is_delivery (e : event) : bool :=
  match e with Attempt _ true => true | _ => false end.

(** Every call of [send_email] ends in exactly one of these two events. *)
Definition is_call (e : event) : bool :=
  match e with CredentialsError | Attempt _ _ => true | _ => false end.

Definition has_address (r : resume) : bool := negb (Str.is_empty (email r)).

(** [not sender_email or not sender_password] *)
Definition credentials_missing (sec : secrets) : bool :=
  missing (EMAIL sec) || missing (PASSWORD sec).

(** The [MIMEText] built for one row. *)
Definition message_for (sec : secrets) (text_for : resume -> mail_text) (row : resume)
  : message :=
  {| msg_from := EMAIL sec; msg_to := email row; msg_text := text_for row |}.

Definition addressed (rows : list resume) : nat :=
  List.length (filter has_address rows).

Definition calls (evs : list event) : nat := List.length (filter is_call evs).

Definition deliveries (evs : list event) : nat := List.length (filter is_delivery evs).

(** The messages handed to the mail server, in order. *)
Fixpoint attempted (evs : list event) : list message :=
  match evs with
  | [] => []
  | Attempt m _ :: evs' => m :: attempted evs'
  | _ :: evs' => attempted evs'
  end.

Section Dispatch.

(** The mail server: one SMTP session (connect, starttls, login,
    send_message) either goes through or raises, and may change the
    server's state. *)
Variable transport : Type.
Variable smtp : transport -> message -> transport * bool.

Variable sec : secrets.

(** [send_email]: the new state of the server, the events, the result. *)
Definition send_email (net : transport) (recipient_email : string) (text : mail_text)
  : transport * list event * bool :=
  if credentials_missing sec then
    (net, [CredentialsError], false)
  else
    let msg := {| msg_from := EMAIL sec; msg_to := recipient_email; msg_text := text |} in
    let '(net', ok) := smtp net msg in
    if ok then (net', [Attempt msg true], true)
    else (net', [Attempt msg false; SendWarning recipient_email], false).

(** One of the two [for _, row in ... iterrows()] loops; [text_for] is the
    subject and body built from the row, [sent] the running counter. *)
Fixpoint send_rows (text_for : resume -> mail_text) (rows : list resume)
         (net : transport) (sent : nat) : transport * list event * nat :=
  match rows with
  | [] => (net, [], sent)
  | row :: rest =>
      if Str.is_empty (email row) then send_rows text_for rest net sent
      else
        let '(net1, evs, ok) := send_email net (email row) (text_for row) in
        let '(net2, evs', sent') :=
          send_rows text_for rest net1 (if ok then S sent else sent) in
        (net2, (evs ++ evs')%list, sent')
  end.

Definition selected_text (row : resume) : mail_text :=
  Congratulations (name row) (resume_title row).

Definition rejected_text (_ : resume) : mail_text := ApplicationUpdate.

(** The body of [if st.button("Send Emails")]. *)
Definition send_emails (selected rejected : list resume) (net : transport)
  : transport * list event :=
  let '(net1, evs1, selected_sent) := send_rows selected_text selected net 0 in
  let '(net2, evs2, rejected_sent) := send_rows rejected_text rejected net1 0 in
  (net2, (evs1 ++ evs2 ++ [Summary selected_sent rejected_sent])%list).

End Dispatch.

Arguments send_email {transport} smtp sec net recipient_email text.
Arguments send_rows {transport} smtp sec text_for rows net sent.
Arguments send_emails {transport} smtp sec selected rejected net.

(** A mail server for the examples: it counts the sessions and refuses every
    second one. *)
Definition every_other (sessions : nat) (_ : message) : nat * bool :=
  (S sessions, Nat.even sessions).

(** A row for the examples. *)
Definition row_of (who address title : string) : resume :=
  {| name := who; resume_skills := EmptyString; projects := EmptyString; experience_years := 0;
     email := address; resume_title := title |}.

(** ** Descriptions used in the statements

    Plain descriptions of what the two extractors look for (they do not go
    through the pattern matcher; the theorems below relate them to
    [extract_field] and [extract_experience]), the rule list of the
    classifier, and the wording of the specification where it differs from
    the script. *)

(** [Some rest] when [s] starts, letter case apart, with [key]. *)
Fixpoint after_prefix_ci (key s : string) : option string :=
  match key, s with
  | EmptyString, _ => Some s
  | String a key', String b s' =>
      if (Chr.tolower b =? Chr.tolower a)%char then after_prefix_ci key' s' else None
  | String _ _, EmptyString => None
  end.

(** The first position of [s], from the left, where [f] gives a result. *)
Fixpoint first_at {B : Type} (f : string -> option B) (s : string) : option B :=
  match f s with
  | Some b => Some b
  | None =>
      match s with
      | String _ s' => first_at f s'
      | EmptyString => None
      end
  end.

(** A label, a colon and then something whose outcome [tail_value] depends
    on the remaining text only, tried at the start of [s]. *)
Definition labelled_here {B : Type} (tail_value : string -> option B)
           (label s : string) : option B :=
  match after_prefix_ci (label ++ ":") s with
  | Some rest => tail_value rest
  | None => None
  end.

(** What follows the first occurrence of [key], letter case apart. *)
Definition after_first_ci (key s : string) : option string :=
  first_at (after_prefix_ci key) s.

Definition occurs_ci (key s : string) : bool :=
  match after_first_ci key s with Some _ => true | None => false end.

Definition starts_ci (key s : string) : bool :=
  match after_prefix_ci key s with Some _ => true | None => false end.

(** The text up to the end of the line (the next line feed). *)
Definition line_head (s : string) : string := Str.take_while (in_class Dot) s.

Fixpoint blank (s : string) : bool :=
  match s with
  | EmptyString => true
  | String c s' => Chr.isspace c && blank s'
  end.

(** The leading run of decimal digits. *)
Definition digits_head (s : string) : string := Str.take_while (in_class Digit) s.

(** What [extract_field] does, read off its pattern: after the first
    occurrence of the label and colon, skip white space (of any kind), take
    the rest of the line reached, trim it. *)
Definition field_value (text field_name : string) : string :=
  match after_first_ci (field_name ++ ":") text with
  | Some rest => Str.strip (line_head (Str.lstrip rest))
  | None => EmptyString
  end.

(** What section 4.2 of the specification says: the trimmed remainder of the
    line of the first occurrence. *)
Definition spec_extract_field (text field_name : string) : string :=
  match after_first_ci (field_name ++ ":") text with
  | Some rest => Str.strip (line_head rest)
  | None => EmptyString
  end.

(** The digits that follow experience_years, a colon and optional white space
    at the start of [s], if there is at least one. *)
Definition experience_here (s : string) : option string :=
  match after_prefix_ci "experience_years:" s with
  | Some rest =>
      match digits_head (Str.lstrip rest) with
      | EmptyString => None
      | d => Some d
      end
  | None => None
  end.

(** The first position, from the left, with such digits; 0 without one. *)
Definition experience_value (s : string) : Z :=
  match first_at experience_here s with
  | Some d => Str.int d
  | None => 0%Z
  end.

(** The lines of a text (split at line feeds). *)
Fixpoint lines_from (cur : string) (s : string) : list string :=
  match s with
  | EmptyString => [cur]
  | String c s' =>
      if (c =? Chr.newline)%char then cur :: lines_from EmptyString s'
      else lines_from (cur ++ String c EmptyString) s'
  end.

Definition lines (s : string) : list string := lines_from EmptyString s.

(** The ordered rule list of the classifier, as section 4.4 numbers it. *)
Definition rules : list (list string * string) :=
  [ (data_science_terms, "Data Scientist");
    (ml_terms, "Machine Learning Engineer");
    (full_stack_terms, "Full Stack Developer");
    (web_design_terms, "Web Designer");
    (ai_terms, "AI Engineer");
    (ui_ux_terms, "UI/UX Designer");
    (game_terms, "Game Designer") ].

Definition categories : list string := map snd rules.

(** First match wins. *)
Fixpoint first_match (rs : list (list string * string)) (combined : string) : string :=
  match rs with
  | [] => "Unknown"
  | (keywords, label) :: rs' =>
      if mentions keywords combined then label else first_match rs' combined
  end.

(** The file name without a final .pdf, as section 4.5 words the fallback. *)
Fixpoint without_pdf_suffix (file_name : string) : string :=
  match file_name with
  | EmptyString => EmptyString
  | String c s' =>
      if (file_name =? ".pdf")%string then EmptyString
      else String c (without_pdf_suffix s')
  end.

Definition spec_name_from_file (file_name : string) : string :=
  Str.title (without_pdf_suffix file_name).

(** [old in s] *)
Definition occurs (old s : string) : bool :=
  match first_at (Str.strip_prefix old) s with Some _ => true | None => false end.

(** ** The rest of the page

    What the script computes for the charts and the download buttons, and a
    few notions used to state how the helpers behave. *)

(** The page texts one after the other, as [text += page.get_text()] builds
    them. *)
Fixpoint concat_pages (texts : list string) : string :=
  match texts with
  | [] => EmptyString
  | t :: rest => t ++ concat_pages rest
  end.

(** Every character of [s] satisfies [p]. *)
Fixpoint all_chars (p : ascii -> bool) (s : string) : bool :=
  match s with
  | EmptyString => true
  | String c s' => p c && all_chars p s'
  end.

(** The last character of [s], or [prev] for the empty string. *)
Fixpoint last_char (prev : option ascii) (s : string) : option ascii :=
  match s with
  | EmptyString => prev
  | String c s' => last_char (Some c) s'
  end.

(** counts = [len(selected_df), len(rejected_df)], computed and drawn only
    under [if not resume_df.empty]. *)
Definition pie_counts (resume_df : list resume) : option (nat * nat) :=
  match resume_df with
  | [] => None
  | _ => Some (List.length (selected_df resume_df), List.length (rejected_df resume_df))
  end.

(** The series [role_counts] given by [value_counts()] on the title column,
    as the map from a title to its number of rows, and its index, the titles
    that occur.  The order in which pandas lists the titles is left out. *)
Definition role_counts (resume_df : list resume) (title : string) : nat :=
  count_occ string_dec (map resume_title resume_df) title.

Definition role_index (resume_df : list resume) : list string :=
  nodup string_dec (map resume_title resume_df).

Definition bar_chart (resume_df : list resume) : option (string -> nat) :=
  match resume_df with
  | [] => None
  | _ => Some (role_counts resume_df)
  end.

Section Downloads.

(** [DataFrame.to_excel] into a [BytesIO] through openpyxl, a library outside
    the script: the bytes of the workbook, or [None] when the call raises
    (openpyxl refuses a cell that holds certain control characters, for
    one).  The script does not catch that exception, which ends the run. *)
Variable workbook : Type.
Variable to_excel : list resume -> option workbook.

(** The download buttons on the page: the file name and the data of each.
    [ExportRaised] is a run ended by [to_excel], with the buttons shown before
    it. *)
Inductive downloads : Type :=
| Offered (buttons : list (string * workbook))
| ExportRaised (buttons : list (string * workbook)).

(** [if not rejected_df.empty:], after the buttons [shown] so far. *)
Definition rejected_button (resume_df : list resume) (shown : list (string * workbook))
  : downloads :=
  match rejected_df resume_df with
  | [] => Offered shown
  | rows =>
      match to_excel rows with
      | Some data => Offered (shown ++ [("rejected_candidates.xlsx", data)])
      | None => ExportRaised shown
      end
  end.

(** [if not selected_df.empty:] and then the rejected table. *)
Definition download_buttons (resume_df : list resume) : downloads :=
  match selected_df resume_df with
  | [] => rejected_button resume_df []
  | rows =>
      match to_excel rows with
      | Some data => rejected_button resume_df [("selected_candidates.xlsx", data)]
      | None => ExportRaised []
      end
  end.

(** What the block under [if uploaded_files:] puts on the page, down to the
    download buttons. *)
Record page : Type := {
  shown_pie : option (nat * nat);
  shown_selected : list resume;
  shown_rejected : list resume;
  shown_bars : option (string -> nat);
  shown_downloads : downloads
}.

Definition render (uploaded_files : list upload) : option page :=
  match uploaded_files with
  | [] => None
  | _ =>
      let resume_df := all_resume_data uploaded_files in
      Some {| shown_pie := pie_counts resume_df;
              shown_selected := selected_df resume_df;
              shown_rejected := rejected_df resume_df;
              shown_bars := bar_chart resume_df;
              shown_downloads := download_buttons resume_df |}
  end.

End Downloads.

Arguments Offered {workbook} buttons.
Arguments ExportRaised {workbook} buttons.
Arguments shown_pie {workbook} p.
Arguments shown_selected {workbook} p.
Arguments shown_rejected {workbook} p.
Arguments shown_bars {workbook} p.
Arguments shown_downloads {workbook} p.
Arguments download_buttons {workbook} to_excel resume_df.
Arguments render {workbook} to_excel uploaded_files.

(** An exporter for the examples, with the check of openpyxl named above: a
    row is refused when one of its text cells holds a character among 0-8,
    11, 12 and 14-31. *)
Definition excel_illegal (c : ascii) : bool :=
  let n := Chr.code c in
  Chr.between 0 8 n || Chr.between 11 12 n || Chr.between 14 31 n.

Definition cell_ok (s : string) : bool := all_chars (fun c => negb (excel_illegal c)) s.

Definition row_ok (r : resume) : bool :=
  cell_ok (name r) && cell_ok (resume_skills r) && cell_ok (projects r)
  && cell_ok (email r) && cell_ok (resume_title r).

Definition checked_export (rows : list resume) : option (list resume) :=
  if forallb row_ok rows then Some rows else None.

(** A click on the button, which exists only under [if uploaded_files:]. *)
Definition send_emails_clicked {transport : Type}
           (smtp : transport -> message -> transport * bool) (sec : secrets)
           (uploaded_files : list upload) (net : transport) : transport * list event :=
  match uploaded_files with
  | [] => (net, [])
  | _ =>
      let resume_df := all_resume_data uploaded_files in
      send_emails smtp sec (selected_df resume_df) (rejected_df resume_df) net
  end.

(** The warnings shown, and the sessions with their outcome, in order. *)
Definition is_warning (e : event) : bool :=
  match e with SendWarning _ => true | _ => false end.

Definition warnings (evs : list event) : nat := List.length (filter is_warning evs).

Fixpoint outcomes (evs : list event) : list (message * bool) :=
  match evs with
  | [] => []
  | Attempt m ok :: evs' => (m, ok) :: outcomes evs'
  | _ :: evs' => outcomes evs'
  end.

(** The mail server answering a list of messages one after the other. *)
Fixpoint replay {transport : Type} (smtp : transport -> message -> transport * bool)
         (net : transport) (msgs : list message) : transport * list (message * bool) :=
  match msgs with
  | [] => (net, [])
  | m :: rest =>
      let '(net1, ok) := smtp net m in
      let '(net2, answers) := replay smtp net1 rest in
      (net2, (m, ok) :: answers)
  end.

(** Every session that raised is followed at once by the warning that names
    its recipient, and no warning appears anywhere else. *)
Fixpoint well_reported (evs : list event) : bool :=
  match evs with
  | [] => true
  | Attempt m false :: rest =>
      match rest with
      | SendWarning r :: rest' => (r =? msg_to m)%string && well_reported rest'
      | _ => false
      end
  | SendWarning _ :: _ => false
  | _ :: rest => well_reported rest
  end.

(** The messages the two loops build for the rows that have an address. *)
Definition messages_for (sec : secrets) (selected rejected : list resume) : list message :=
  (map (message_for sec selected_text) (filter has_address selected)
   ++ map (message_for sec rejected_text) (filter has_address rejected))%list.

(** The documents from which an e-mail address is extracted. *)
Definition with_address (uploaded_files : list upload) : list upload :=
  filter (fun f => negb (Str.is_empty
                           (extract_field (extract_text_from_pdf (content f)) "Email")))
         uploaded_files.

(** ** Exceptions the script does not catch

    [int] on a very long run of digits and [st.secrets] without a secrets
    store raise, and nothing in the script catches them: the run ends there.
    The definitions below add these two cases to [extract_experience] and to
    the handler of the button. *)

(** sys.get_int_max_str_digits(), at CPython's default. *)
Definition int_max_str_digits : nat := 4300.

(** [int(s)] on a string of decimal digits; [None] is the ValueError for a
    string with more digits than the limit (leading zeros count). *)
Definition int_checked (digits : string) : option Z :=
  if (String.length digits <=? int_max_str_digits)%nat then Some (Str.int digits) else None.

(** [extract_experience] with that exception: [None] when [int] raises. *)
Definition extract_experience_checked (text : string) : option Z :=
  match search true experience_pattern text with
  | Some m => int_checked (group_text m)
  | None => Some 0%Z
  end.

Fixpoint repeat_char (c : ascii) (n : nat) : string :=
  match n with
  | O => EmptyString
  | S n' => String c (repeat_char c n')
  end.

(** The strings on which [Str.title] is Python's [title()]: those without
    the micro sign, the sharp s and the y with diaeresis, whose title case
    leaves the range 0..255 or is two letters long. *)
Definition title_safe (s : string) : bool :=
  all_chars (fun c => negb ((Chr.code c =? 181)%N || (Chr.code c =? 223)%N
                            || (Chr.code c =? 255)%N)) s.

(** What [st.secrets] finds: no secrets store at all, or a store. *)
Inductive secret_store : Type :=
| NoSecretsFile
| SecretsFile (sec : secrets).

(** Credentials are absent when there is no store, or when the store lacks
    EMAIL or PASSWORD or holds an empty one. *)
Definition credentials_absent (store : secret_store) : bool :=
  match store with
  | NoSecretsFile => true
  | SecretsFile sec => credentials_missing sec
  end.

(** How a run of the handler ends: at its last line, or at an exception. *)
Inductive run_end : Type :=
| Completed
| Raised.

Section DispatchRun.

Variable transport : Type.
Variable smtp : transport -> message -> transport * bool.
Variable store : secret_store.

(** [send_email] from its first line: without a secrets store
    [st.secrets.get] raises ([None]) before anything else is done. *)
Definition send_email_in (net : transport) (recipient_email : string) (text : mail_text)
  : option (transport * list event * bool) :=
  match store with
  | NoSecretsFile => None
  | SecretsFile sec => Some (send_email smtp sec net recipient_email text)
  end.

(** One loop; the counter is [None] when a call raised, which ends the loop. *)
Fixpoint send_rows_in (text_for : resume -> mail_text) (rows : list resume)
         (net : transport) (sent : nat) : transport * list event * option nat :=
  match rows with
  | [] => (net, [], Some sent)
  | row :: rest =>
      if Str.is_empty (email row) then send_rows_in text_for rest net sent
      else
        match send_email_in net (email row) (text_for row) with
        | None => (net, [], None)
        | Some (net1, evs, ok) =>
            let '(net2, evs', sent') :=
              send_rows_in text_for rest net1 (if ok then S sent else sent) in
            (net2, (evs ++ evs')%list, sent')
        end
  end.

(** The body of [if st.button("Send Emails")], exceptions included. *)
Definition send_emails_run (selected rejected : list resume) (net : transport)
  : transport * list event * run_end :=
  let '(net1, evs1, sent1) := send_rows_in selected_text selected net 0 in
  match sent1 with
  | None => (net1, evs1, Raised)
  | Some selected_sent =>
      let '(net2, evs2, sent2) := send_rows_in rejected_text rejected net1 0 in
      match sent2 with
      | None => (net2, (evs1 ++ evs2)%list, Raised)
      | Some rejected_sent =>
          (net2, (evs1 ++ evs2 ++ [Summary selected_sent rejected_sent])%list, Completed)
      end
  end.

End DispatchRun.

Arguments send_email_in {transport} smtp store net recipient_email text.
Arguments send_rows_in {transport} smtp store text_for rows net sent.
Arguments send_emails_run {transport} smtp store selected rejected net.

(** * Properties *)

(** ** Strings *)

Lemma append_empty_r (s : string) : s ++ EmptyString = s.
Proof.
  induction s as [|c s IH]; simpl; [reflexivity | now rewrite IH].
Qed.

Lemma append_assoc (a b c : string) : (a ++ b) ++ c = a ++ (b ++ c).
Proof.
  induction a as [|x a IH]; simpl; [reflexivity | now rewrite IH].
Qed.

Lemma length_append (a b : string) :
  String.length (a ++ b) = String.length a + String.length b.
Proof.
  induction a as [|x a IH]; simpl; [reflexivity | now rewrite IH].
Qed.

Lemma take_drop_while (p : ascii -> bool) (s : string) :
  Str.take_while p s ++ Str.drop_while p s = s.
Proof.
  induction s as [|c s IH]; simpl; [reflexivity|].
  destruct (p c); simpl; [now rewrite IH | reflexivity].
Qed.

Lemma substring_prefix (a b : string) : substring 0 (String.length a) (a ++ b) = a.
Proof.
  induction a as [|x a IH]; simpl.
  - destruct b; reflexivity.
  - now rewrite IH.
Qed.

Lemma consumed_append (a b : string) : consumed (a ++ b) b = a.
Proof.
  unfold consumed. rewrite length_append.
  replace (String.length a + String.length b - String.length b)
    with (String.length a) by lia.
  apply substring_prefix.
Qed.

Lemma consumed_take_while (p : ascii -> bool) (s : string) :
  consumed s (Str.drop_while p s) = Str.take_while p s.
Proof.
  rewrite <- (take_drop_while p s) at 1. apply consumed_append.
Qed.

Lemma space_not_decimal (c : ascii) : Chr.isspace c = true -> Chr.isdecimal c = false.
Proof.
  destruct c as [[] [] [] [] [] [] [] []]; vm_compute; congruence.
Qed.

Lemma after_prefix_ci_append (a b s : string) :
  after_prefix_ci (a ++ b) s =
  match after_prefix_ci a s with
  | Some s' => after_prefix_ci b s'
  | None => None
  end.
Proof.
  revert s. induction a as [|x a IH]; intros s; simpl.
  - destruct b; reflexivity.
  - destruct s as [|y s]; [reflexivity|].
    destruct (Chr.tolower y =? Chr.tolower x)%char; [apply IH | reflexivity].
Qed.

(** ** The matcher on the two extraction patterns *)

Section MatcherFacts.

Context {A : Type}.

(** A greedy repetition followed by something that accepts the longest
    run stops there. *)
Lemma star_longest (cl : cclass) (k : option ascii -> string -> option A) :
  blind k ->
  forall s prev a,
    k None (Str.drop_while (in_class cl) s) = Some a ->
    star cl prev s k = Some a.
Proof.
  intros Hk s. induction s as [|x s IH]; intros prev a H; simpl in *.
  - now rewrite (Hk prev None).
  - destruct (in_class cl x).
    + now rewrite (IH (Some x) a H).
    + now rewrite (Hk prev None).
Qed.

(** When what follows cannot start with a character of the class, giving
    characters back never helps: only the longest run is decisive. *)
Lemma star_no_give_back (cl : cclass) (k : option ascii -> string -> option A) :
  blind k ->
  (forall p x s, in_class cl x = true -> k p (String x s) = None) ->
  forall s prev, star cl prev s k = k None (Str.drop_while (in_class cl) s).
Proof.
  intros Hk Hno s. induction s as [|x s IH]; intros prev; simpl.
  - apply Hk.
  - destruct (in_class cl x) eqn:Hx.
    + rewrite (IH (Some x)).
      destruct (k None (Str.drop_while (in_class cl) s)); [reflexivity|].
      now apply Hno.
    + apply Hk.
Qed.

(** A literal run under IGNORECASE. *)
Lemma exec_lits_ci (L : string) (k : option ascii -> string -> option string -> option A) :
  (forall p p' s g, k p s g = k p' s g) ->
  forall prev s g,
    exec true (lits L) prev s g k =
    match after_prefix_ci L s with
    | Some s' => k None s' g
    | None => None
    end.
Proof.
  intros Hk. induction L as [|c L IH]; intros prev s g; simpl.
  - apply Hk.
  - destruct s as [|x s]; [reflexivity|].
    unfold lit_eq. destruct (Chr.tolower x =? Chr.tolower c)%char; [apply IH | reflexivity].
Qed.

End MatcherFacts.

(** A group holding a greedy run of one class, at the end of a pattern,
    captures the longest run. *)
Lemma exec_group_star (ic : bool) (cl : cclass) (prev : option ascii) (s : string)
      (g : option string) :
  exec ic (Grp (Star cl)) prev s g finish
  = Some {| group1 := Some (Str.take_while (in_class cl) s) |}.
Proof.
  simpl. apply star_longest.
  - intros p p' t. reflexivity.
  - unfold finish. now rewrite consumed_take_while.
Qed.

(** The tail of the field pattern, [\s*] and the group, never fails: it
    skips the white space and captures the rest of the line it reaches. *)
Lemma exec_field_tail (prev : option ascii) (s : string) (g : option string) :
  exec true (Cat (Star Space) (Grp (Star Dot))) prev s g finish
  = Some {| group1 := Some (line_head (Str.lstrip s)) |}.
Proof.
  change (star Space prev s
            (fun p' s' => exec true (Grp (Star Dot)) p' s' g finish)
          = Some {| group1 := Some (line_head (Str.lstrip s)) |}).
  apply star_longest.
  - intros p p' t. now rewrite !exec_group_star.
  - now rewrite exec_group_star.
Qed.

(** A group holding [cl+], at the end of a pattern. *)
Lemma exec_group_plus (ic : bool) (cl : cclass) (prev : option ascii) (s : string)
      (g : option string) :
  exec ic (Grp (Plus cl)) prev s g finish =
  match Str.take_while (in_class cl) s with
  | EmptyString => None
  | d => Some {| group1 := Some d |}
  end.
Proof.
  destruct s as [|x s]; [reflexivity|].
  simpl. destruct (in_class cl x); [|reflexivity].
  apply star_longest.
  - intros p p' t. reflexivity.
  - unfold finish. do 3 f_equal.
    rewrite <- (take_drop_while (in_class cl) s) at 1.
    apply (consumed_append (String x (Str.take_while (in_class cl) s))).
Qed.

(** The tail of the experience pattern: white space, then at least one
    digit.  Giving white space back cannot produce a digit. *)
Lemma exec_experience_tail (prev : option ascii) (s : string) (g : option string) :
  exec true (Cat (Star Space) (Grp (Plus Digit))) prev s g finish =
  match digits_head (Str.lstrip s) with
  | EmptyString => None
  | d => Some {| group1 := Some d |}
  end.
Proof.
  change (star Space prev s
            (fun p' s' => exec true (Grp (Plus Digit)) p' s' g finish)
          = match digits_head (Str.lstrip s) with
            | EmptyString => None
            | d => Some {| group1 := Some d |}
            end).
  rewrite star_no_give_back.
  - apply exec_group_plus.
  - intros p p' t. now rewrite !exec_group_plus.
  - intros p x t Hx. rewrite exec_group_plus. simpl in *.
    now rewrite (space_not_decimal x Hx).
Qed.

Section Labelled.

(** A pattern made of a literal label, a colon and a tail whose outcome
    [tail_value] depends on the remaining text only. *)
Variable tail : regex.
Variable tail_value : string -> option Match.
Hypothesis tail_ok :
  forall prev s g, exec true tail prev s g finish = tail_value s.

Lemma match_at_labelled (label : string) (prev : option ascii) (s : string) :
  match_at true (Cat (lits label) (Cat (Lit ":") tail)) prev s = labelled_here tail_value label s.
Proof.
  unfold match_at, labelled_here.
  change (exec true (lits label) prev s None
            (fun p' s' g' => exec true (Cat (Lit ":") tail) p' s' g' finish)
          = match after_prefix_ci (label ++ ":") s with
            | Some rest => tail_value rest
            | None => None
            end).
  rewrite exec_lits_ci by (intros p p' t g; reflexivity).
  rewrite after_prefix_ci_append.
  destruct (after_prefix_ci label s) as [s'|]; [|reflexivity].
  destruct s' as [|x s']; [reflexivity|].
  change (exec true (Cat (Lit ":") tail) None (String x s') None finish)
    with (if lit_eq true ":" x then exec true tail (Some x) s' None finish else None).
  rewrite tail_ok. unfold lit_eq. simpl.
  destruct (Chr.tolower x =? Chr.tolower ":")%char; reflexivity.
Qed.

(** [re.search] scans the start positions from the left. *)
Lemma search_labelled (label : string) (s : string) :
  search true (Cat (lits label) (Cat (Lit ":") tail)) s
  = first_at (labelled_here tail_value label) s.
Proof.
  unfold search. generalize (@None ascii) as prev.
  induction s as [|x s IH]; intros prev.
  - unfold search_from. rewrite match_at_labelled. simpl.
    destruct (labelled_here tail_value label EmptyString); reflexivity.
  - change (match match_at true (Cat (lits label) (Cat (Lit ":") tail)) prev (String x s) with
            | Some m => Some m
            | None => search_from true (Cat (lits label) (Cat (Lit ":") tail)) (Some x) s
            end = first_at (labelled_here tail_value label) (String x s)).
    rewrite match_at_labelled, IH. reflexivity.
Qed.

End Labelled.

(** When the tail cannot fail, the first occurrence of the label decides. *)
Lemma first_at_total (key : string) (v : string -> Match) (s : string) :
  first_at (fun t => match after_prefix_ci key t with
                     | Some rest => Some (v rest)
                     | None => None
                     end) s
  = match after_first_ci key s with
    | Some rest => Some (v rest)
    | None => None
    end.
Proof.
  unfold after_first_ci.
  induction s as [|x s IH]; simpl.
  - destruct (after_prefix_ci key EmptyString); reflexivity.
  - destruct (after_prefix_ci key (String x s)); [reflexivity | apply IH].
Qed.

(** A name without metacharacters stands for itself. *)
Lemma label_pattern_plain (field_name : string) :
  plain_label field_name = true -> label_pattern field_name = lits field_name.
Proof.
  induction field_name as [|c s IH]; simpl; [reflexivity|].
  intros H. apply andb_prop in H as [Hc Hs]. rewrite (IH Hs).
  destruct (c =? ".")%char eqn:E; [|reflexivity].
  apply Ascii.eqb_eq in E. subst c. discriminate.
Qed.

(** [re.search] with the field pattern. *)
Lemma search_field (field_name text : string) :
  plain_label field_name = true ->
  search true (field_pattern field_name) text =
  match after_first_ci (field_name ++ ":") text with
  | Some rest => Some {| group1 := Some (line_head (Str.lstrip rest)) |}
  | None => None
  end.
Proof.
  intros Hplain. unfold field_pattern. rewrite (label_pattern_plain _ Hplain).
  rewrite (search_labelled _
             (fun s => Some {| group1 := Some (line_head (Str.lstrip s)) |}))
    by apply exec_field_tail.
  apply (first_at_total (field_name ++ ":")
           (fun rest => {| group1 := Some (line_head (Str.lstrip rest)) |})).
Qed.

(** Group 1 takes part in every match of the field pattern. *)
Lemma field_pattern_group (field_name text : string) (m : Match) :
  plain_label field_name = true ->
  search true (field_pattern field_name) text = Some m -> group1 m <> None.
Proof.
  intros Hplain. rewrite (search_field _ _ Hplain).
  destruct (after_first_ci (field_name ++ ":") text); intros H; inversion H; discriminate.
Qed.

(** [extract_field] without the matcher. *)
Lemma extract_field_value (text field_name : string) :
  plain_label field_name = true ->
  extract_field text field_name = field_value text field_name.
Proof.
  intros Hplain. unfold extract_field, field_value. rewrite (search_field _ _ Hplain).
  destruct (after_first_ci (field_name ++ ":") text); reflexivity.
Qed.

(** [re.search] with the experience pattern. *)
Lemma search_experience (text : string) :
  search true experience_pattern text =
  match first_at experience_here text with
  | Some d => Some {| group1 := Some d |}
  | None => None
  end.
Proof.
  unfold experience_pattern.
  rewrite (search_labelled _
             (fun s => match digits_head (Str.lstrip s) with
                       | EmptyString => None
                       | d => Some {| group1 := Some d |}
                       end))
    by apply exec_experience_tail.
  induction text as [|x text IH].
  - reflexivity.
  - cbn [first_at]. rewrite IH.
    unfold labelled_here, experience_here.
    change ("experience_years" ++ ":") with "experience_years:".
    destruct (after_prefix_ci "experience_years:" (String x text)) as [rest|];
      [|reflexivity].
    destruct (digits_head (Str.lstrip rest)); reflexivity.
Qed.

Lemma experience_pattern_group (text : string) (m : Match) :
  search true experience_pattern text = Some m -> group1 m <> None.
Proof.
  rewrite search_experience.
  destruct (first_at experience_here text); intros H; inversion H; discriminate.
Qed.

(** [extract_experience] without the matcher. *)
Lemma extract_experience_value (text : string) :
  extract_experience text = experience_value text.
Proof.
  unfold extract_experience, experience_value. rewrite search_experience.
  destruct (first_at experience_here text); reflexivity.
Qed.

(** ** Field extraction *)

Lemma drop_while_idem (p : ascii -> bool) (s : string) :
  Str.drop_while p (Str.drop_while p s) = Str.drop_while p s.
Proof.
  induction s as [|c s IH]; simpl; [reflexivity|].
  destruct (p c) eqn:E; [exact IH | simpl; now rewrite E].
Qed.

Lemma strip_lstrip (s : string) : Str.strip (Str.lstrip s) = Str.strip s.
Proof.
  unfold Str.strip, Str.lstrip. now rewrite drop_while_idem.
Qed.

(** On a line whose remainder is not blank, skipping white space stays on
    the line. *)
Lemma line_head_lstrip (rest : string) :
  blank (line_head rest) = false ->
  line_head (Str.lstrip rest) = Str.lstrip (line_head rest).
Proof.
  unfold line_head, Str.lstrip.
  induction rest as [|c rest IH]; simpl; [discriminate|].
  destruct (c =? Chr.newline)%char eqn:Enl; simpl; [discriminate|].
  destruct (Chr.isspace c) eqn:Esp; simpl.
  - exact IH.
  - intros _. now rewrite Enl.
Qed.

Lemma first_at_head_none {B : Type} (f : string -> option B) (s : string) :
  first_at f s = None -> f s = None.
Proof.
  destruct s; simpl; destruct (f _); congruence.
Qed.

Lemma first_at_some {B : Type} (f : string -> option B) (s : string) (b : B) :
  first_at f s = Some b -> exists t, f t = Some b.
Proof.
  induction s as [|c s IH]; simpl.
  - destruct (f EmptyString) eqn:E; [|discriminate]. intros H; inversion H; subst. now exists EmptyString.
  - destruct (f (String c s)) eqn:E.
    + intros H; inversion H; subst. now exists (String c s).
    + exact IH.
Qed.

Lemma first_at_none_mono {B C : Type} (f : string -> option B) (g : string -> option C) :
  (forall t, g t = None -> f t = None) ->
  forall s, first_at g s = None -> first_at f s = None.
Proof.
  intros Hfg s. induction s as [|c s IH]; simpl.
  - destruct (g EmptyString) eqn:E; [discriminate|]. intros _. now rewrite (Hfg _ E).
  - destruct (g (String c s)) eqn:E; [discriminate|]. intros H.
    rewrite (Hfg _ E). now apply IH.
Qed.

(** A prefix test only looks at as many characters as the key has. *)
Lemma after_prefix_ci_local (key x y : string) :
  String.length key <= String.length x ->
  after_prefix_ci key (x ++ y) =
  match after_prefix_ci key x with
  | Some r => Some (r ++ y)
  | None => None
  end.
Proof.
  revert x. induction key as [|a key IH]; intros x Hlen; simpl.
  - reflexivity.
  - destruct x as [|b x]; simpl in *; [lia|].
    destruct (Chr.tolower b =? Chr.tolower a)%char; [apply IH; lia | reflexivity].
Qed.

(** If the key does not occur in [pre ++ w], where [w] lacks one character
    to hold the key, then the first occurrence in [pre ++ w ++ z] is the first
    one in [w ++ z]: none starts inside [pre]. *)
Lemma after_first_ci_skip (key pre w z : string) :
  String.length key <= S (String.length w) ->
  after_first_ci key (pre ++ w) = None ->
  after_first_ci key (pre ++ w ++ z) = after_first_ci key (w ++ z).
Proof.
  intros Hlen. unfold after_first_ci.
  induction pre as [|c pre IH]; intros Hnone; [reflexivity|].
  pose proof (first_at_head_none _ _ Hnone) as Hhead.
  change (String c pre ++ w ++ z) with (String c (pre ++ w ++ z)).
  cbn [first_at].
  replace (after_prefix_ci key (String c (pre ++ w ++ z))) with (@None string).
  - apply IH. simpl in Hnone.
    change (String c pre ++ w) with (String c (pre ++ w)) in Hhead.
    now rewrite Hhead in Hnone.
  - change (String c (pre ++ w ++ z)) with (String c pre ++ w ++ z).
    rewrite <- append_assoc.
    rewrite after_prefix_ci_local, Hhead; [reflexivity|].
    rewrite length_append. simpl. lia.
Qed.

(** [extract_field] agrees with section 4.2 whenever the label's own line
    has something after the colon. *)
Lemma extract_field_same_line (text field_name rest : string) :
  plain_label field_name = true ->
  after_first_ci (field_name ++ ":") text = Some rest ->
  blank (line_head rest) = false ->
  extract_field text field_name = Str.strip (line_head rest).
Proof.
  intros Hplain Hocc Hnb. rewrite (extract_field_value _ _ Hplain). unfold field_value.
  rewrite Hocc, (line_head_lstrip _ Hnb). apply strip_lstrip.
Qed.

Lemma extract_field_absent (text field_name : string) :
  plain_label field_name = true ->
  occurs_ci (field_name ++ ":") text = false ->
  extract_field text field_name = EmptyString.
Proof.
  intros Hplain. unfold occurs_ci. rewrite (extract_field_value _ _ Hplain).
  unfold field_value.
  destruct (after_first_ci (field_name ++ ":") text); [discriminate | reflexivity].
Qed.

(** The value of a label at its first occurrence: the text before it is not
    looked at. *)
Lemma extract_field_at_first (pre label value post : string) :
  plain_label label = true ->
  occurs_ci (label ++ ":") (pre ++ label) = false ->
  after_prefix_ci (label ++ ":") (label ++ ":") = Some EmptyString ->
  extract_field (pre ++ (label ++ ":") ++ value ++ post) label
  = Str.strip (line_head (Str.lstrip (value ++ post))).
Proof.
  intros Hplain Hpre Hself. rewrite (extract_field_value _ _ Hplain). unfold field_value.
  replace (pre ++ (label ++ ":") ++ value ++ post)
    with (pre ++ label ++ (":" ++ value ++ post))
    by (now rewrite !append_assoc).
  rewrite after_first_ci_skip.
  - rewrite <- append_assoc.
    unfold after_first_ci.
    assert (H : after_prefix_ci (label ++ ":") ((label ++ ":") ++ value ++ post)
                = Some (value ++ post)).
    { rewrite after_prefix_ci_local by lia. now rewrite Hself. }
    destruct ((label ++ ":") ++ value ++ post); simpl in *; now rewrite H.
  - rewrite length_append. simpl. lia.
  - unfold occurs_ci in Hpre.
    destruct (after_first_ci (label ++ ":") (pre ++ label)); [discriminate | reflexivity].
Qed.

(** C1 (as amended).  For a field name free of pattern metacharacters,
    [extract_field] looks for the first occurrence of the name followed by a
    colon, letter case apart.  Without one it returns the empty string.  With
    one, and when the remainder of that line is not blank, it returns the
    trimmed remainder of that line.  In particular, when the first occurrence
    of "Name:" is followed by " Alice" and the end of the line or of the text,
    the result is "Alice"; and a text without any occurrence of "Email:",
    letter case apart, gives the empty string. *)
Theorem extract_field_first_occurrence (text field_name : string) :
  plain_label field_name = true ->
  (occurs_ci (field_name ++ ":") text = false ->
   extract_field text field_name = EmptyString)
  /\ (forall rest,
        after_first_ci (field_name ++ ":") text = Some rest ->
        blank (line_head rest) = false ->
        extract_field text field_name = spec_extract_field text field_name
        /\ extract_field text field_name = Str.strip (line_head rest))
  /\ (forall pre post,
        occurs_ci "Name:" (pre ++ "Name") = false ->
        post = EmptyString \/ (exists t, post = String Chr.newline t) ->
        extract_field (pre ++ "Name: Alice" ++ post) "Name" = "Alice")
  /\ (occurs_ci "Email:" text = false -> extract_field text "Email" = EmptyString).
Proof.
  intros Hplain.
  split; [now apply extract_field_absent|].
  split.
  { intros rest Hocc Hnb. split.
    - rewrite (extract_field_same_line _ _ _ Hplain Hocc Hnb).
      unfold spec_extract_field. now rewrite Hocc.
    - now apply extract_field_same_line. }
  split; [|now apply (extract_field_absent text "Email")].
  intros pre post Hpre Hpost.
  change (pre ++ "Name: Alice" ++ post)
    with (pre ++ ("Name" ++ ":") ++ " Alice" ++ post).
  rewrite extract_field_at_first; [|reflexivity|exact Hpre|reflexivity].
  destruct Hpost as [->|[t ->]]; reflexivity.
Qed.

Lemma extract_field_first_occurrence_witness :
  plain_label "Name" = true
  /\ extract_field "Summary
name: Alice
Email: alice@example.org" "Name" = "Alice"
  /\ extract_field ("Nickname unknown
" ++ "Name: Alice" ++ "
Email: alice@example.org") "Name" = "Alice"
  /\ extract_field "Name: Alice" "Email" = EmptyString.
Proof.
  split; [reflexivity|].
  destruct (extract_field_first_occurrence "Name: Alice" "Name" eq_refl)
    as (_ & _ & Halice & Hemail).
  destruct (extract_field_first_occurrence
              "Summary
name: Alice
Email: alice@example.org" "Name" eq_refl)
    as (_ & Hline & _ & _).
  split; [|split].
  - destruct (Hline " Alice
Email: alice@example.org" eq_refl eq_refl) as [_ H]. exact H.
  - apply Halice; [reflexivity | right; eexists; reflexivity].
  - apply Hemail. reflexivity.
Defined.

(** C1, as the specification words it, fails on the script.  A text with the
    line "Name: Alice" gives "Bob" when an earlier line holds the label.  When
    nothing follows the colon on its line, the result is taken from the next
    line instead of being empty.  And a name is read as a pattern: the name
    N.me finds "Nome:", which is no occurrence of it. *)
Lemma extract_field_counterexample :
  (In "Name: Alice" (lines "Name: Bob
Name: Alice")
   /\ extract_field "Name: Bob
Name: Alice" "Name" = "Bob"
   /\ extract_field "Name: Bob
Name: Alice" "Name" <> "Alice")
  /\ (spec_extract_field "Name:
Email: a@b.c" "Name" = EmptyString
      /\ extract_field "Name:
Email: a@b.c" "Name" = "Email: a@b.c"
      /\ extract_field "Name:
Email: a@b.c" "Name" <> spec_extract_field "Name:
Email: a@b.c" "Name")
  /\ (occurs_ci "N.me:" "Nome: x" = false
      /\ extract_field "Nome: x" "N.me" = "x"
      /\ extract_field "Nome: x" "N.me" <> EmptyString).
Proof.
  split; [|split]; split.
  - simpl. auto.
  - split; [reflexivity | discriminate].
  - reflexivity.
  - split; [reflexivity | discriminate].
  - reflexivity.
  - split; [reflexivity | discriminate].
Qed.

(** ** Experience years *)

Lemma isdecimal_code (c : ascii) :
  Chr.isdecimal c = true -> (48 <= Z.of_N (Chr.code c) <= 57)%Z.
Proof.
  unfold Chr.isdecimal, Chr.between. intros H.
  apply andb_prop in H as [H1 H2].
  apply N.leb_le in H1, H2. lia.
Qed.

Lemma int_from_digits_nonneg (s : string) (acc : Z) :
  (0 <= acc)%Z -> (0 <= Str.int_from acc (Str.take_while Chr.isdecimal s))%Z.
Proof.
  revert acc. induction s as [|c s IH]; intros acc Hacc;
    cbn [Str.take_while Str.int_from]; [exact Hacc|].
  destruct (Chr.isdecimal c) eqn:E; cbn [Str.int_from]; [|exact Hacc].
  apply IH. pose proof (isdecimal_code c E). lia.
Qed.

Lemma experience_here_digits (s d : string) :
  experience_here s = Some d ->
  exists t, d = Str.take_while Chr.isdecimal t /\ d <> EmptyString.
Proof.
  unfold experience_here.
  destruct (after_prefix_ci "experience_years:" s) as [rest|]; [|discriminate].
  unfold digits_head. change (in_class Digit) with Chr.isdecimal.
  destruct (Str.take_while Chr.isdecimal (Str.lstrip rest)) eqn:E; [discriminate|].
  intros H. injection H as <-. exists (Str.lstrip rest). split; [now rewrite E | discriminate].
Qed.

Lemma experience_value_nonneg (text : string) : (0 <= experience_value text)%Z.
Proof.
  unfold experience_value.
  destruct (first_at experience_here text) as [d|] eqn:E; [|lia].
  apply first_at_some in E as [t Ht].
  apply experience_here_digits in Ht as [u [-> _]].
  now apply int_from_digits_nonneg.
Qed.

Lemma extract_experience_checked_value (text : string) :
  extract_experience_checked text =
  match first_at experience_here text with
  | Some d => int_checked d
  | None => Some 0%Z
  end.
Proof.
  unfold extract_experience_checked. rewrite search_experience.
  destruct (first_at experience_here text); reflexivity.
Qed.

Lemma int_checked_within (d : string) :
  String.length d <= int_max_str_digits -> int_checked d = Some (Str.int d).
Proof.
  intros H. unfold int_checked.
  now rewrite (proj2 (Nat.leb_le _ _) H).
Qed.

Lemma int_checked_value (d : string) (v : Z) : int_checked d = Some v -> v = Str.int d.
Proof.
  unfold int_checked. destruct (_ <=? _)%nat; [|discriminate].
  now intros H; injection H as <-.
Qed.

(** When [extract_experience] returns, it returns the value of the model
    without the exception. *)
Lemma extract_experience_returned (text : string) (v : Z) :
  extract_experience_checked text = Some v -> extract_experience text = v.
Proof.
  rewrite extract_experience_checked_value, extract_experience_value.
  unfold experience_value.
  destruct (first_at experience_here text) as [d|].
  - intros H. now rewrite (int_checked_value _ _ H).
  - now intros H; injection H as <-.
Qed.




(** ** The classifier *)

Lemma determine_title_rules (skills_text projects_text : string) :
  determine_title skills_text projects_text
  = first_match rules (combined_text skills_text projects_text).
Proof.
  reflexivity.
Qed.

(** The label of a matching rule is returned when no rule listed before it
    matches. *)
Lemma first_match_earliest (combined : string) (rs : list (list string * string)) :
  forall i keywords label,
    nth_error rs i = Some (keywords, label) ->
    mentions keywords combined = true ->
    (forall j keywords' label',
        j < i -> nth_error rs j = Some (keywords', label') ->
        mentions keywords' combined = false) ->
    first_match rs combined = label.
Proof.
  induction rs as [|[kw0 l0] rs IH]; intros i keywords label Hnth Hm Hbefore.
  - destruct i; discriminate.
  - destruct i as [|i]; simpl in *.
    + injection Hnth as -> ->. now rewrite Hm.
    + rewrite (Hbefore 0 kw0 l0); [|lia|reflexivity].
      apply (IH i keywords label Hnth Hm).
      intros j kw' l' Hj Hnth'. apply (Hbefore (S j) kw' l'); [lia | exact Hnth'].
Qed.

(** Conversely the result is the label of a rule that matches and that no
    matching rule precedes, or the sentinel when no rule matches. *)
Lemma first_match_cases (combined : string) (rs : list (list string * string)) :
  (exists i keywords,
      nth_error rs i = Some (keywords, first_match rs combined)
      /\ mentions keywords combined = true
      /\ forall j keywords' label',
          j < i -> nth_error rs j = Some (keywords', label') ->
          mentions keywords' combined = false)
  \/ (first_match rs combined = "Unknown"
      /\ forall keywords label, In (keywords, label) rs -> mentions keywords combined = false).
Proof.
  induction rs as [|[kw0 l0] rs IH]; simpl.
  - right. split; [reflexivity | intros ? ? []].
  - destruct (mentions kw0 combined) eqn:E0.
    + left. exists 0, kw0. repeat split; [exact E0|]. intros j ? ? Hj. lia.
    + destruct IH as [(i & kw & Hnth & Hm & Hbefore) | [Hunk Hnone]].
      * left. exists (S i), kw. repeat split; [exact Hnth | exact Hm |].
        intros [|j] kw' l' Hj Hnth'; simpl in Hnth'.
        -- now injection Hnth' as -> _.
        -- apply (Hbefore j kw' l'); [lia | exact Hnth'].
      * right. split; [exact Hunk|].
        intros kw l [Heq | Hin]; [now injection Heq as -> _ | eauto].
Qed.

(** C3.  [determine_title] tests the seven rules in the order data science,
    machine learning, full stack, web design, AI, UI/UX, game development, and
    the first rule that matches the combined text decides: whenever a rule
    matches and none listed before it does, its label is returned, whatever
    the later rules do.  "I use pandas and matplotlib" gives "Data Scientist"
    and "unity game developer" gives "Game Designer". *)
Theorem determine_title_first_match (skills_text projects_text : string) :
  map snd rules
  = ["Data Scientist"; "Machine Learning Engineer"; "Full Stack Developer";
     "Web Designer"; "AI Engineer"; "UI/UX Designer"; "Game Designer"]
  /\ determine_title skills_text projects_text
     = first_match rules (combined_text skills_text projects_text)
  /\ (forall i keywords label,
        nth_error rules i = Some (keywords, label) ->
        mentions keywords (combined_text skills_text projects_text) = true ->
        (forall j keywords' label',
            j < i -> nth_error rules j = Some (keywords', label') ->
            mentions keywords' (combined_text skills_text projects_text) = false) ->
        determine_title skills_text projects_text = label)
  /\ determine_title "I use pandas and matplotlib" EmptyString = "Data Scientist"
  /\ determine_title "unity game developer" EmptyString = "Game Designer".
Proof.
  split; [reflexivity|].
  split; [apply determine_title_rules|].
  split; [|split; reflexivity].
  intros i keywords label Hnth Hm Hbefore.
  rewrite determine_title_rules.
  now apply (first_match_earliest _ rules i keywords label).
Qed.

Lemma determine_title_first_match_witness :
  mentions ml_terms (combined_text "sklearn, HTML, CSS" "a Unity game") = true
  /\ mentions web_design_terms (combined_text "sklearn, HTML, CSS" "a Unity game") = true
  /\ mentions game_terms (combined_text "sklearn, HTML, CSS" "a Unity game") = true
  /\ determine_title "sklearn, HTML, CSS" "a Unity game" = "Machine Learning Engineer".
Proof.
  do 3 (split; [reflexivity|]).
  destruct (determine_title_first_match "sklearn, HTML, CSS" "a Unity game")
    as (_ & _ & H & _).
  apply (H 1 ml_terms "Machine Learning Engineer"); [reflexivity | reflexivity |].
  intros j kw' l' Hj Hnth.
  destruct j as [|j]; [|lia].
  injection Hnth as <- _. reflexivity.
Defined.

Lemma tolower_idem (c : ascii) : Chr.tolower (Chr.tolower c) = Chr.tolower c.
Proof.
  destruct c as [[] [] [] [] [] [] [] []]; reflexivity.
Qed.

Lemma lower_idem (s : string) : Str.lower (Str.lower s) = Str.lower s.
Proof.
  induction s as [|c s IH]; simpl; [reflexivity | now rewrite tolower_idem, IH].
Qed.

Lemma lower_append (a b : string) : Str.lower (a ++ b) = Str.lower a ++ Str.lower b.
Proof.
  induction a as [|c a IH]; simpl; [reflexivity | now rewrite IH].
Qed.

Lemma combined_text_lower (skills_text projects_text : string) :
  combined_text (Str.lower skills_text) (Str.lower projects_text)
  = combined_text skills_text projects_text.
Proof.
  unfold combined_text. now rewrite !lower_append, !lower_idem.
Qed.

(** C4.  The classifier looks at one text only: the skills, one space and the
    projects, lower-cased (so the letter case of its inputs does not matter).
    Its result is one of the seven category labels or "Unknown", and two empty
    inputs give "Unknown". *)
Theorem determine_title_closed_set (skills_text projects_text : string) :
  determine_title skills_text projects_text
  = first_match rules (Str.lower (skills_text ++ " " ++ projects_text))
  /\ determine_title (Str.lower skills_text) (Str.lower projects_text)
     = determine_title skills_text projects_text
  /\ In (determine_title skills_text projects_text)
        ["Data Scientist"; "Machine Learning Engineer"; "Full Stack Developer";
         "Web Designer"; "AI Engineer"; "UI/UX Designer"; "Game Designer"; "Unknown"]
  /\ determine_title EmptyString EmptyString = "Unknown".
Proof.
  split; [apply determine_title_rules|].
  split; [now rewrite !determine_title_rules, combined_text_lower|].
  split; [|reflexivity].
  unfold determine_title.
  repeat match goal with
         | |- context [if ?b then _ else _] => destruct b
         end; simpl; tauto.
Qed.

(** ** Selected and rejected rows *)

Lemma filter_split_length {X : Type} (f : X -> bool) (l : list X) :
  List.length (filter (fun x => negb (f x)) l) + List.length (filter f l) = List.length l.
Proof.
  induction l as [|x l IH]; simpl; [reflexivity|].
  destruct (f x); simpl; lia.
Qed.

Lemma is_unknown_iff (r : resume) : is_unknown r = true <-> resume_title r = "Unknown".
Proof.
  unfold is_unknown. apply String.eqb_eq.
Qed.

(** C5.  A row is selected if and only if its title is not "Unknown", and
    rejected otherwise; the two tables together have as many rows as the
    batch (one per uploaded document).  With three rows of which exactly one
    is "Unknown", two are selected and one is rejected. *)
Theorem selected_rejected_partition (resume_df : list resume) :
  (forall r, In r (selected_df resume_df) <-> In r resume_df /\ resume_title r <> "Unknown")
  /\ (forall r, In r (rejected_df resume_df) <-> In r resume_df /\ resume_title r = "Unknown")
  /\ List.length (selected_df resume_df) + List.length (rejected_df resume_df)
     = List.length resume_df
  /\ (forall uploaded_files,
        resume_df = all_resume_data uploaded_files ->
        List.length (selected_df resume_df) + List.length (rejected_df resume_df)
        = List.length uploaded_files)
  /\ (forall a b c,
        resume_df = [a; b; c] ->
        Nat.b2n (is_unknown a) + Nat.b2n (is_unknown b) + Nat.b2n (is_unknown c) = 1 ->
        List.length (selected_df resume_df) = 2 /\ List.length (rejected_df resume_df) = 1).
Proof.
  split.
  { intros r. unfold selected_df. rewrite filter_In, negb_true_iff.
    rewrite <- is_unknown_iff. destruct (is_unknown r); intuition congruence. }
  split.
  { intros r. unfold rejected_df. rewrite filter_In. now rewrite is_unknown_iff. }
  split; [apply filter_split_length|].
  split.
  { intros ups ->. unfold selected_df, rejected_df.
    rewrite filter_split_length. apply length_map. }
  intros a b c -> H. unfold selected_df, rejected_df. simpl.
  destruct (is_unknown a), (is_unknown b), (is_unknown c); simpl in *;
    try discriminate; split; reflexivity.
Qed.

Lemma selected_rejected_partition_witness :
  List.length (selected_df (all_resume_data
    [ {| file_name := "ann.pdf";
         content := Pages [Some "Name: Ann
resume_skills: pandas, matplotlib
Projects: sales dashboard
Email: ann@example.org"] |};
      {| file_name := "scan.pdf"; content := Unreadable |};
      {| file_name := "bo.pdf";
         content := Pages [Some "Name: Bo
resume_skills: Unity, C#
Projects: a platform game"] |} ])) = 2
  /\ List.length (rejected_df (all_resume_data
    [ {| file_name := "ann.pdf";
         content := Pages [Some "Name: Ann
resume_skills: pandas, matplotlib
Projects: sales dashboard
Email: ann@example.org"] |};
      {| file_name := "scan.pdf"; content := Unreadable |};
      {| file_name := "bo.pdf";
         content := Pages [Some "Name: Bo
resume_skills: Unity, C#
Projects: a platform game"] |} ])) = 1.
Proof.
  refine (let H := selected_rejected_partition _ in _).
  destruct H as (_ & _ & _ & _ & H).
  eapply H; reflexivity.
Defined.

(** ** The record of one document *)

Lemma or_else_nonempty (x y : string) : x <> EmptyString -> or_else x y = x.
Proof.
  destruct x; [congruence | reflexivity].
Qed.

(** The name is the extracted field when there is one, the file name
    otherwise. *)
Lemma resume_name (uploaded_file : upload) :
  let extracted := extract_field (extract_text_from_pdf (content uploaded_file)) "Name" in
  (extracted <> EmptyString -> name (resume_data uploaded_file) = extracted)
  /\ (extracted = EmptyString ->
      name (resume_data uploaded_file) = name_from_file (file_name uploaded_file)).
Proof.
  simpl. split; intros H.
  - now apply or_else_nonempty.
  - now rewrite H.
Qed.

Lemma strip_prefix_local (p x y : string) :
  String.length p <= String.length x ->
  Str.strip_prefix p (x ++ y) =
  match Str.strip_prefix p x with
  | Some r => Some (r ++ y)
  | None => None
  end.
Proof.
  revert x. induction p as [|a p IH]; intros x Hlen; simpl.
  - reflexivity.
  - destruct x as [|b x]; simpl in *; [lia|].
    destruct (a =? b)%char; [apply IH; lia | reflexivity].
Qed.

(** When .pdf occurs in the file name as its extension only, [replace]
    removes just the extension. *)
Lemma replace_only_extension (stem : string) :
  occurs ".pdf" (stem ++ ".pd") = false ->
  Str.replace (stem ++ ".pdf") ".pdf" EmptyString = stem.
Proof.
  unfold occurs, Str.replace.
  induction stem as [|c stem IH]; intros Hno; [reflexivity|].
  change (String c stem ++ ".pdf") with (String c (stem ++ ".pdf")).
  cbn [Str.replace_from].
  assert (Hhead : Str.strip_prefix ".pdf" (String c stem ++ ".pd") = None).
  { apply first_at_head_none.
    destruct (first_at (Str.strip_prefix ".pdf") (String c stem ++ ".pd"));
      [discriminate | reflexivity]. }
  replace (Str.strip_prefix ".pdf" (String c (stem ++ ".pdf"))) with (@None string).
  - f_equal. apply IH.
    change (String c stem ++ ".pd") with (String c (stem ++ ".pd")) in Hno, Hhead.
    cbn [first_at] in Hno. now rewrite Hhead in Hno.
  - change (String c (stem ++ ".pdf")) with (String c stem ++ (".pd" ++ "f")).
    rewrite <- append_assoc, strip_prefix_local, Hhead; [reflexivity|].
    rewrite length_append. simpl. lia.
Qed.

Lemma without_pdf_suffix_extension (stem : string) :
  without_pdf_suffix (stem ++ ".pdf") = stem.
Proof.
  induction stem as [|c stem IH]; [reflexivity|].
  change (String c stem ++ ".pdf") with (String c (stem ++ ".pdf")).
  cbn [without_pdf_suffix].
  replace (String c (stem ++ ".pdf") =? ".pdf")%string with false.
  - now rewrite IH.
  - symmetry. apply String.eqb_neq. intros H.
    apply (f_equal String.length) in H. simpl in H.
    rewrite length_append in H. simpl in H. lia.
Qed.

(** On such file names the script's fallback is the one section 4.5
    describes. *)
Lemma name_from_file_only_extension (stem : string) :
  occurs ".pdf" (stem ++ ".pd") = false ->
  name_from_file (stem ++ ".pdf") = spec_name_from_file (stem ++ ".pdf")
  /\ name_from_file (stem ++ ".pdf") = Str.title stem.
Proof.
  intros H. unfold name_from_file, spec_name_from_file.
  now rewrite (replace_only_extension stem H), without_pdf_suffix_extension.
Qed.

(** C6 at its failing input.  For john_doe.pdf the fallback is the file name
    without its extension, title-cased.  For cv.pdfs.final.pdf the script
    removes the inner .pdf as well and names the record Cvs.Final, where the
    file name without its extension, title-cased, is Cv.Pdfs.Final. *)
Theorem name_from_file_inner_pdf :
  name (resume_data {| file_name := "john_doe.pdf"; content := Unreadable |}) = "John_Doe"
  /\ spec_name_from_file "john_doe.pdf" = "John_Doe"
  /\ name (resume_data {| file_name := "cv.pdfs.final.pdf"; content := Unreadable |})
     = "Cvs.Final"
  /\ spec_name_from_file "cv.pdfs.final.pdf" = "Cv.Pdfs.Final"
  /\ name (resume_data {| file_name := "x.pdf"; content := Pages [Some "NAME: Li Wei"] |})
     = "Li Wei".
Proof.
  repeat split.
Qed.

(** C9 (as amended).  A document that cannot be opened, or whose first page
    cannot be read, has the empty text.  For the empty text the four
    extractions (name, skills, projects, e-mail) return the empty string, the
    experience is 0 and the title is "Unknown".  The record of a document with
    the empty text has empty skills, projects and e-mail, 0 years and the
    title "Unknown"; its name is not the empty extraction but the fallback
    derived from the file name, John_Doe for john_doe.pdf. *)
Theorem empty_text_record (uploaded_file : upload) :
  extract_text_from_pdf Unreadable = EmptyString
  /\ (forall later, extract_text_from_pdf (Pages (None :: later)) = EmptyString)
  /\ extract_field EmptyString "Name" = EmptyString
  /\ extract_field EmptyString "resume_skills" = EmptyString
  /\ extract_field EmptyString "Projects" = EmptyString
  /\ extract_field EmptyString "Email" = EmptyString
  /\ extract_experience_checked EmptyString = Some 0%Z
  /\ determine_title EmptyString EmptyString = "Unknown"
  /\ (extract_text_from_pdf (content uploaded_file) = EmptyString ->
      resume_skills (resume_data uploaded_file) = EmptyString
      /\ projects (resume_data uploaded_file) = EmptyString
      /\ email (resume_data uploaded_file) = EmptyString
      /\ experience_years (resume_data uploaded_file) = 0%Z
      /\ resume_title (resume_data uploaded_file) = "Unknown"
      /\ (title_safe (file_name uploaded_file) = true ->
          name (resume_data uploaded_file) = name_from_file (file_name uploaded_file)))
  /\ name (resume_data {| file_name := "john_doe.pdf"; content := Unreadable |})
     = "John_Doe".
Proof.
  do 8 (split; [reflexivity|]).
  split; [|reflexivity].
  intros H. unfold resume_data. rewrite H. repeat split.
Qed.

Lemma empty_text_record_witness :
  title_safe "john_doe.pdf" = true
  /\ resume_data {| file_name := "john_doe.pdf"; content := Pages [None; Some "Name: J"] |}
     = {| name := "John_Doe"; resume_skills := EmptyString; projects := EmptyString;
          experience_years := 0; email := EmptyString; resume_title := "Unknown" |}.
Proof.
  split; [reflexivity|].
  destruct (empty_text_record
              {| file_name := "john_doe.pdf"; content := Pages [None; Some "Name: J"] |})
    as (_ & _ & _ & _ & _ & _ & _ & _ & H & _).
  destruct (H eq_refl) as (Hs & Hp & He & Hx & Ht & Hn).
  specialize (Hn eq_refl).
  destruct (resume_data {| file_name := "john_doe.pdf";
                           content := Pages [None; Some "Name: J"] |}).
  cbn in *. now subst.
Defined.

(** C9, as the specification words it, fails on the script.  The record of
    an unreadable john_doe.pdf is named John_Doe, not the empty string; and a
    document that fails on its second page is reported but keeps the text of
    its first page, so that its record is not empty at all. *)
Lemma empty_text_record_counterexample :
  (extract_text_from_pdf Unreadable = EmptyString
   /\ name (resume_data {| file_name := "john_doe.pdf"; content := Unreadable |})
      = "John_Doe"
   /\ name (resume_data {| file_name := "john_doe.pdf"; content := Unreadable |})
      <> EmptyString)
  /\ (extract_text_from_pdf_reporting
        (Pages [Some "Name: Ann
resume_skills: pandas
"; None])
      = ("Name: Ann
resume_skills: pandas
", true)
      /\ resume_title (resume_data {| file_name := "a.pdf";
                                      content := Pages [Some "Name: Ann
resume_skills: pandas
"; None] |}) = "Data Scientist").
Proof.
  split; [|split; reflexivity].
  repeat split. discriminate.
Qed.

(** C10.  The label is found wherever it stands, also inside a longer word:
    no line of "Nickname: Bob" begins with "Name:", letter case apart, and
    yet the name extracted from it is "Bob".  More generally the text before
    the first occurrence is not looked at. *)
Theorem extract_field_inside_word :
  (forallb (fun l => negb (starts_ci "Name:" l)) (lines "Nickname: Bob") = true
   /\ extract_field "Nickname: Bob" "Name" = "Bob")
  /\ (forall pre,
        occurs_ci "Name:" (pre ++ "Name") = false ->
        extract_field (pre ++ "Name: Bob") "Name" = "Bob").
Proof.
  split; [split; reflexivity|].
  intros pre Hpre.
  change (pre ++ "Name: Bob") with (pre ++ ("Name" ++ ":") ++ " Bob" ++ EmptyString).
  now rewrite extract_field_at_first.
Qed.

Lemma extract_field_inside_word_witness :
  occurs_ci "Name:" ("Nick" ++ "Name") = false
  /\ extract_field ("Nick" ++ "Name: Bob") "Name" = "Bob".
Proof.
  split; [reflexivity|].
  destruct extract_field_inside_word as [_ H].
  exact (H "Nick" eq_refl).
Defined.

(** ** Sending the e-mails *)

Section DispatchFacts.

Variable transport : Type.
Variable smtp : transport -> message -> transport * bool.
Variable sec : secrets.

(** What one call of [send_email] can do. *)
Lemma send_email_cases (net : transport) (recipient : string) (text : mail_text) :
  let msg := {| msg_from := EMAIL sec; msg_to := recipient; msg_text := text |} in
  (credentials_missing sec = true
   /\ send_email smtp sec net recipient text = (net, [CredentialsError], false))
  \/ (credentials_missing sec = false
      /\ exists net' ok,
        smtp net msg = (net', ok)
        /\ send_email smtp sec net recipient text
           = (net', Attempt msg ok :: (if ok then [] else [SendWarning recipient]), ok)).
Proof.
  unfold send_email. simpl.
  destruct (credentials_missing sec); [left; split; reflexivity|].
  right. split; [reflexivity|].
  destruct (smtp net _) as [net' [|]]; exists net'; eexists; split; reflexivity.
Qed.

Lemma deliveries_le_calls (evs : list event) : deliveries evs <= calls evs.
Proof.
  unfold deliveries, calls.
  induction evs as [|e evs IH]; simpl; [lia|].
  destruct e as [|m [|]| |]; simpl; lia.
Qed.

Lemma calls_app (a b : list event) : calls (a ++ b) = calls a + calls b.
Proof.
  unfold calls. now rewrite filter_app, length_app.
Qed.

Lemma deliveries_app (a b : list event) : deliveries (a ++ b) = deliveries a + deliveries b.
Proof.
  unfold deliveries. now rewrite filter_app, length_app.
Qed.

Lemma attempted_app (a b : list event) : attempted (a ++ b) = (attempted a ++ attempted b)%list.
Proof.
  induction a as [|e a IH]; simpl; [reflexivity|].
  destruct e; simpl; now rewrite IH.
Qed.

Lemma send_rows_skip (text_for : resume -> mail_text) (row : resume) (rows : list resume)
      (net : transport) (sent : nat) :
  has_address row = false ->
  send_rows smtp sec text_for (row :: rows) net sent
  = send_rows smtp sec text_for rows net sent.
Proof.
  unfold has_address. intros H. apply negb_false_iff in H.
  cbn [send_rows]. now rewrite H.
Qed.

Lemma send_rows_step (text_for : resume -> mail_text) (row : resume) (rows : list resume)
      (net net1 net2 : transport) (sent sent2 : nat) (evs1 evs2 : list event) (ok : bool) :
  has_address row = true ->
  send_email smtp sec net (email row) (text_for row) = (net1, evs1, ok) ->
  send_rows smtp sec text_for rows net1 (if ok then S sent else sent) = (net2, evs2, sent2) ->
  send_rows smtp sec text_for (row :: rows) net sent = (net2, (evs1 ++ evs2)%list, sent2).
Proof.
  unfold has_address. intros H E1 E2. apply negb_true_iff in H.
  cbn [send_rows]. now rewrite H, E1, E2.
Qed.

(** One loop: every row with an address costs one call, in the order of the
    rows, whatever the outcome of the calls before it; the counter grows by
    the number of sessions that went through. *)
Lemma send_rows_trace (text_for : resume -> mail_text) (rows : list resume) :
  forall net sent net' evs sent',
    send_rows smtp sec text_for rows net sent = (net', evs, sent') ->
    calls evs = addressed rows
    /\ sent' = sent + deliveries evs
    /\ (credentials_missing sec = true ->
        net' = net /\ evs = repeat CredentialsError (addressed rows))
    /\ (credentials_missing sec = false ->
        attempted evs = map (message_for sec text_for) (filter has_address rows)).
Proof.
  induction rows as [|row rows IH]; intros net sent net' evs sent' H.
  - injection H as <- <- <-. repeat split; auto.
  - unfold addressed in *. cbn [filter].
    destruct (has_address row) eqn:Ha.
    + destruct (send_email smtp sec net (email row) (text_for row))
        as [[net1 evs1] ok] eqn:E1.
      destruct (send_rows smtp sec text_for rows net1 (if ok then S sent else sent))
        as [[net2 evs2] sent2] eqn:E2.
      rewrite (send_rows_step _ _ _ _ _ _ _ _ _ _ _ Ha E1 E2) in H.
      injection H as <- <- <-.
      destruct (IH _ _ _ _ _ E2) as (Hc & Hs & Hm & Hp).
      rewrite calls_app, deliveries_app, attempted_app, Hc.
      destruct (send_email_cases net (email row) (text_for row))
        as [[Hmiss Eq] | [Hpres (n1 & o1 & _ & Eq)]];
        rewrite E1 in Eq; injection Eq as -> -> ->.
      * repeat split.
        -- subst sent2. reflexivity.
        -- now destruct (Hm Hmiss).
        -- destruct (Hm Hmiss) as [_ ->]. reflexivity.
        -- congruence.
      * repeat split.
        -- destruct o1; reflexivity.
        -- subst sent2. destruct o1; cbn; lia.
        -- congruence.
        -- congruence.
        -- intros _. cbn [attempted app map]. rewrite (Hp Hpres).
           destruct o1; reflexivity.
    + rewrite (send_rows_skip _ _ _ _ _ Ha) in H. apply (IH _ _ _ _ _ H).
Qed.

End DispatchFacts.

Lemma attempted_repeat_error (n : nat) : attempted (repeat CredentialsError n) = [].
Proof.
  induction n as [|n IH]; simpl; auto.
Qed.

Lemma deliveries_repeat_error (n : nat) : deliveries (repeat CredentialsError n) = 0.
Proof.
  unfold deliveries. induction n as [|n IH]; simpl; auto.
Qed.

(** With a store that lacks a credential, every call reports the error and
    the run goes to its end. *)
Lemma send_emails_missing_log
      (transport : Type) (smtp : transport -> message -> transport * bool)
      (sec : secrets) (selected rejected : list resume) (net : transport) :
  credentials_missing sec = true ->
  send_emails smtp sec selected rejected net
  = (net, (repeat CredentialsError (addressed selected + addressed rejected)
           ++ [Summary 0 0])%list).
Proof.
  intros Hmiss. unfold send_emails.
  destruct (send_rows smtp sec selected_text selected net 0)
    as [[net1 evs1] n1] eqn:E1.
  destruct (send_rows smtp sec rejected_text rejected net1 0)
    as [[net2 evs2] n2] eqn:E2.
  destruct (send_rows_trace _ smtp sec _ _ _ _ _ _ _ E1) as (_ & Hs1 & Hm1 & _).
  destruct (send_rows_trace _ smtp sec _ _ _ _ _ _ _ E2) as (_ & Hs2 & Hm2 & _).
  destruct (Hm1 Hmiss) as [-> ->]. destruct (Hm2 Hmiss) as [-> ->].
  rewrite deliveries_repeat_error in Hs1, Hs2. subst n1 n2.
  now rewrite repeat_app, <- app_assoc.
Qed.

Lemma send_rows_in_store
      (transport : Type) (smtp : transport -> message -> transport * bool)
      (sec : secrets) (text_for : resume -> mail_text) (rows : list resume) :
  forall net sent,
    send_rows_in smtp (SecretsFile sec) text_for rows net sent
    = let '(net', evs, sent') := send_rows smtp sec text_for rows net sent in
      (net', evs, Some sent').
Proof.
  induction rows as [|row rows IH]; intros net sent; [reflexivity|].
  cbn [send_rows_in send_rows send_email_in].
  destruct (Str.is_empty (email row)); [apply IH|].
  destruct (send_email smtp sec net (email row) (text_for row)) as [[net1 evs] ok].
  rewrite IH.
  destruct (send_rows smtp sec text_for rows net1 (if ok then S sent else sent))
    as [[net2 evs'] sent']. reflexivity.
Qed.

Lemma send_emails_run_store
      (transport : Type) (smtp : transport -> message -> transport * bool)
      (sec : secrets) (selected rejected : list resume) (net : transport) :
  send_emails_run smtp (SecretsFile sec) selected rejected net
  = (fst (send_emails smtp sec selected rejected net),
     snd (send_emails smtp sec selected rejected net), Completed).
Proof.
  unfold send_emails_run, send_emails. rewrite send_rows_in_store.
  destruct (send_rows smtp sec selected_text selected net 0) as [[net1 evs1] n1].
  rewrite send_rows_in_store.
  destruct (send_rows smtp sec rejected_text rejected net1 0) as [[net2 evs2] n2].
  reflexivity.
Qed.

(** Without a store the first row that has an address ends the loop. *)
Lemma send_rows_in_no_store
      (transport : Type) (smtp : transport -> message -> transport * bool)
      (text_for : resume -> mail_text) (rows : list resume) (net : transport) (sent : nat) :
  send_rows_in smtp NoSecretsFile text_for rows net sent
  = (net, [], match addressed rows with O => Some sent | S _ => None end).
Proof.
  unfold addressed.
  induction rows as [|row rows IH]; [reflexivity|].
  cbn [send_rows_in send_email_in filter]. unfold has_address at 1.
  destruct (Str.is_empty (email row)); cbn [negb]; [exact IH | reflexivity].
Qed.






(** ** Further properties of the helpers *)

Lemma read_pages_readable (texts : list string) (tail : list (option string))
      (acc : string) :
  read_pages acc (map Some texts ++ tail) = read_pages (acc ++ concat_pages texts) tail.
Proof.
  revert acc. induction texts as [|t texts IH]; intros acc; simpl.
  - now rewrite append_empty_r.
  - rewrite IH. now rewrite append_assoc.
Qed.

Lemma text_of_readable (texts : list string) :
  extract_text_from_pdf (Pages (map Some texts)) = concat_pages texts.
Proof.
  unfold extract_text_from_pdf, extract_text_from_pdf_reporting.
  rewrite <- (app_nil_r (map Some texts)), read_pages_readable. reflexivity.
Qed.

Lemma text_of_failing (texts : list string) (later : list (option string)) :
  extract_text_from_pdf (Pages (map Some texts ++ None :: later)) = concat_pages texts.
Proof.
  unfold extract_text_from_pdf, extract_text_from_pdf_reporting.
  rewrite read_pages_readable. reflexivity.
Qed.

(** X1.  When the document opens and every page can be read,
    [extract_text_from_pdf] returns the page texts joined in page order,
    with nothing between them, and reports no error. *)
Theorem extract_text_all_pages (texts : list string) :
  extract_text_from_pdf_reporting (Pages (map Some texts)) = (concat_pages texts, false)
  /\ extract_text_from_pdf (Pages (map Some texts)) = concat_pages texts.
Proof.
  split; [|apply text_of_readable].
  unfold extract_text_from_pdf_reporting.
  rewrite <- (app_nil_r (map Some texts)), read_pages_readable. reflexivity.
Qed.

(** X2.  When reading a page fails, the error is reported and the text of the
    pages read before it is kept (the result is not reset to the empty
    string); the pages after it are not read.  The record of such a document
    is the record of the document cut before the failing page. *)
Theorem extract_text_keeps_earlier_pages
        (texts : list string) (later : list (option string)) (file : string) :
  extract_text_from_pdf_reporting (Pages (map Some texts ++ None :: later))
  = (concat_pages texts, true)
  /\ resume_data {| file_name := file; content := Pages (map Some texts ++ None :: later) |}
     = resume_data {| file_name := file; content := Pages (map Some texts) |}.
Proof.
  split.
  - unfold extract_text_from_pdf_reporting. rewrite read_pages_readable. reflexivity.
  - unfold resume_data. cbn [content file_name].
    now rewrite text_of_failing, text_of_readable.
Qed.

(** *** Field extraction *)

Lemma lstrip_blank_append (ws s : string) :
  blank ws = true -> Str.lstrip (ws ++ s) = Str.lstrip s.
Proof.
  unfold Str.lstrip. induction ws as [|c ws IH]; simpl; [reflexivity|].
  intros H. apply andb_prop in H as [Hc Hws]. rewrite Hc. now apply IH.
Qed.

Lemma lstrip_blank (ws : string) : blank ws = true -> Str.lstrip ws = EmptyString.
Proof.
  unfold Str.lstrip. induction ws as [|c ws IH]; simpl; [reflexivity|].
  intros H. apply andb_prop in H as [Hc Hws]. rewrite Hc. now apply IH.
Qed.

(** X3.  The value of a field starts at the first character after the colon
    that is not white space, on whatever line that character stands, and
    runs to the end of that line: blank lines after the label are skipped.
    When only white space follows the colon up to the end of the text, the
    value is empty. *)
Theorem extract_field_value_start (text field_name ws : string) :
  plain_label field_name = true ->
  blank ws = true ->
  (forall c tail,
      after_first_ci (field_name ++ ":") text = Some (ws ++ String c tail) ->
      Chr.isspace c = false ->
      extract_field text field_name = Str.strip (line_head (String c tail)))
  /\ (after_first_ci (field_name ++ ":") text = Some ws ->
      extract_field text field_name = EmptyString).
Proof.
  intros Hplain Hws. split.
  - intros c tail Hocc Hc.
    rewrite (extract_field_value _ _ Hplain). unfold field_value. rewrite Hocc.
    rewrite (lstrip_blank_append _ _ Hws).
    unfold Str.lstrip. simpl Str.drop_while. now rewrite Hc.
  - intros Hocc.
    rewrite (extract_field_value _ _ Hplain). unfold field_value. rewrite Hocc.
    now rewrite (lstrip_blank _ Hws).
Qed.

Lemma extract_field_value_start_witness :
  extract_field "Name:   

   Alice B.  
Email: alice@example.org" "Name" = "Alice B."
  /\ extract_field "Email: a@b.c
Name:  
 " "Name" = EmptyString.
Proof.
  split.
  - refine (proj1 (extract_field_value_start "Name:   

   Alice B.  
Email: alice@example.org" "Name" "   

   " eq_refl eq_refl) "A"%char "lice B.  
Email: alice@example.org" eq_refl eq_refl).
  - refine (proj2 (extract_field_value_start "Email: a@b.c
Name:  
 " "Name" "  
 " eq_refl eq_refl) eq_refl).
Defined.

Lemma all_chars_take_while (p : ascii -> bool) (s : string) :
  all_chars p (Str.take_while p s) = true.
Proof.
  induction s as [|c s IH]; simpl; [reflexivity|].
  destruct (p c) eqn:E; simpl; [now rewrite E | reflexivity].
Qed.

Lemma all_chars_rstrip (p : ascii -> bool) (s : string) :
  all_chars p s = true -> all_chars p (Str.rstrip s) = true.
Proof.
  induction s as [|c s IH]; simpl; [reflexivity|].
  intros H. apply andb_prop in H as [Hc Hs]. specialize (IH Hs).
  destruct (Str.rstrip s) as [|d r].
  - destruct (Chr.isspace c); simpl; [reflexivity | now rewrite Hc].
  - simpl in *. now rewrite Hc.
Qed.

Lemma rstrip_idem (s : string) : Str.rstrip (Str.rstrip s) = Str.rstrip s.
Proof.
  induction s as [|c s IH]; simpl; [reflexivity|].
  destruct (Str.rstrip s) as [|d r] eqn:E.
  - destruct (Chr.isspace c) eqn:Ec; simpl; [reflexivity | now rewrite Ec].
  - change (Str.rstrip (String c (String d r)))
      with (match Str.rstrip (String d r) with
            | EmptyString => if Chr.isspace c then EmptyString else String c EmptyString
            | String a r0 => String c (String a r0)
            end).
    now rewrite IH.
Qed.

Lemma drop_while_length (p : ascii -> bool) (s : string) :
  String.length (Str.drop_while p s) <= String.length s.
Proof.
  induction s as [|c s IH]; simpl; [lia|].
  destruct (p c); simpl; lia.
Qed.

(** A string that [lstrip] leaves alone does not start with white space. *)
Lemma lstrip_fixed_head (c : ascii) (s : string) :
  Str.lstrip (String c s) = String c s -> Chr.isspace c = false.
Proof.
  unfold Str.lstrip. simpl. destruct (Chr.isspace c); [|reflexivity].
  intros H. pose proof (drop_while_length Chr.isspace s) as Hlen.
  rewrite H in Hlen. simpl in Hlen. lia.
Qed.

Lemma lstrip_head_fixed (c : ascii) (s : string) :
  Chr.isspace c = false -> Str.lstrip (String c s) = String c s.
Proof.
  intros H. unfold Str.lstrip. simpl. now rewrite H.
Qed.

Lemma lstrip_rstrip_fixed (t : string) :
  Str.lstrip t = t -> Str.lstrip (Str.rstrip t) = Str.rstrip t.
Proof.
  destruct t as [|c t]; [reflexivity|].
  intros H. apply lstrip_fixed_head in H.
  cbn [Str.rstrip]. destruct (Str.rstrip t).
  - rewrite H. now apply lstrip_head_fixed.
  - now apply lstrip_head_fixed.
Qed.

Lemma lstrip_take_while_fixed (p : ascii -> bool) (t : string) :
  Str.lstrip t = t -> Str.lstrip (Str.take_while p t) = Str.take_while p t.
Proof.
  destruct t as [|c t]; [reflexivity|].
  intros H. apply lstrip_fixed_head in H.
  simpl. destruct (p c); [now apply lstrip_head_fixed | reflexivity].
Qed.

(** The shape of every value [field_value] produces. *)
Lemma field_value_shape (text field_name : string) :
  Str.lstrip (field_value text field_name) = field_value text field_name
  /\ Str.rstrip (field_value text field_name) = field_value text field_name
  /\ all_chars (in_class Dot) (field_value text field_name) = true.
Proof.
  unfold field_value.
  destruct (after_first_ci (field_name ++ ":") text) as [rest|]; [|repeat split].
  unfold Str.strip, line_head.
  assert (Hfix : Str.lstrip (Str.take_while (in_class Dot) (Str.lstrip rest))
                 = Str.take_while (in_class Dot) (Str.lstrip rest)).
  { apply lstrip_take_while_fixed. apply drop_while_idem. }
  rewrite Hfix.
  split; [|split].
  - now apply lstrip_rstrip_fixed.
  - apply rstrip_idem.
  - apply all_chars_rstrip. apply all_chars_take_while.
Qed.

(** X4.  Whatever the text, the value returned by [extract_field] is
    trimmed and lies on one line: it neither starts nor ends with white
    space, it holds no line feed, and trimming it again changes nothing. *)
Theorem extract_field_trimmed_one_line (text field_name : string) :
  plain_label field_name = true ->
  Str.lstrip (extract_field text field_name) = extract_field text field_name
  /\ Str.rstrip (extract_field text field_name) = extract_field text field_name
  /\ Str.strip (extract_field text field_name) = extract_field text field_name
  /\ all_chars (fun c => negb (c =? Chr.newline)%char) (extract_field text field_name)
     = true.
Proof.
  intros Hplain. rewrite (extract_field_value _ _ Hplain).
  destruct (field_value_shape text field_name) as (Hl & Hr & Hc).
  split; [exact Hl|]. split; [exact Hr|]. split; [|exact Hc].
  unfold Str.strip. now rewrite Hl, Hr.
Qed.

Lemma extract_field_trimmed_one_line_witness :
  Str.strip (extract_field "skills:    python ,  sql   
Projects: none" "Skills")
  = extract_field "skills:    python ,  sql   
Projects: none" "Skills"
  /\ extract_field "skills:    python ,  sql   
Projects: none" "Skills" = "python ,  sql".
Proof.
  split; [|reflexivity].
  destruct (extract_field_trimmed_one_line "skills:    python ,  sql   
Projects: none" "Skills" eq_refl) as (_ & _ & H & _).
  exact H.
Defined.

Lemma after_prefix_ci_lower_key (key s : string) :
  after_prefix_ci (Str.lower key) s = after_prefix_ci key s.
Proof.
  revert s. induction key as [|a key IH]; intros s; simpl; [reflexivity|].
  destruct s as [|b s]; [reflexivity|].
  rewrite tolower_idem. destruct (Chr.tolower b =? Chr.tolower a)%char; [apply IH | reflexivity].
Qed.

Lemma first_at_ext {B : Type} (f g : string -> option B) (s : string) :
  (forall t, f t = g t) -> first_at f s = first_at g s.
Proof.
  intros H. induction s as [|c s IH]; simpl; rewrite H; [reflexivity|].
  destruct (g (String c s)); [reflexivity | exact IH].
Qed.

Lemma field_value_lower_label (text field_name : string) :
  field_value text (Str.lower field_name) = field_value text field_name.
Proof.
  unfold field_value, after_first_ci.
  rewrite (first_at_ext (after_prefix_ci (Str.lower field_name ++ ":"))
                        (after_prefix_ci (field_name ++ ":"))); [reflexivity|].
  intros t. rewrite <- (after_prefix_ci_lower_key (field_name ++ ":")).
  now rewrite lower_append.
Qed.

(** X5.  The letter case of the field name does not matter: two names that
    differ in case only (such as Name and NAME) extract the same value from
    every text. *)
Theorem extract_field_label_case (text name1 name2 : string) :
  plain_label name1 = true ->
  plain_label name2 = true ->
  Str.lower name1 = Str.lower name2 ->
  extract_field text name1 = extract_field text name2.
Proof.
  intros H1 H2 Hlow.
  rewrite (extract_field_value _ _ H1), (extract_field_value _ _ H2).
  rewrite <- (field_value_lower_label text name1), <- (field_value_lower_label text name2).
  now rewrite Hlow.
Qed.

Lemma extract_field_label_case_witness :
  extract_field "e-mail: none
EMAIL: Ann@Example.org" "Email"
  = extract_field "e-mail: none
EMAIL: Ann@Example.org" "eMAIL".
Proof.
  exact (extract_field_label_case _ "Email" "eMAIL" eq_refl eq_refl eq_refl).
Defined.

(** *** Experience years *)

Lemma after_prefix_ci_same (key : string) :
  forall label rest,
    Str.lower label = Str.lower key ->
    after_prefix_ci key (label ++ rest) = Some rest.
Proof.
  induction key as [|a key IH]; intros label rest H.
  - destruct label; [reflexivity | discriminate].
  - destruct label as [|b label]; [discriminate|].
    simpl in H. injection H as Hb Hl.
    simpl. rewrite Hb, Ascii.eqb_refl. now apply IH.
Qed.

Lemma first_at_here {B : Type} (f : string -> option B) (s : string) (b : B) :
  f s = Some b -> first_at f s = Some b.
Proof.
  intros H. destruct s; cbn [first_at]; now rewrite H.
Qed.

Lemma take_while_all_then_stop (p : ascii -> bool) (d rest : string) :
  all_chars p d = true ->
  Str.take_while p rest = EmptyString ->
  Str.take_while p (d ++ rest) = d.
Proof.
  induction d as [|c d IH]; simpl; intros Hd Hrest; [exact Hrest|].
  apply andb_prop in Hd as [Hc Hd]. rewrite Hc. now rewrite IH.
Qed.

Lemma decimal_not_space (c : ascii) : Chr.isdecimal c = true -> Chr.isspace c = false.
Proof.
  intros H. destruct (Chr.isspace c) eqn:E; [|reflexivity].
  rewrite (space_not_decimal c E) in H. discriminate.
Qed.

(** X6.  When the text starts with the label in any letter case, followed by
    any white space (line breaks included) and a run of at most 4300 digits
    that ends at a character that is not a digit or at the end of the text,
    [extract_experience] returns the number those digits write; what follows
    the digits is not looked at. *)
Theorem extract_experience_reads_digits (label ws digits rest : string) :
  Str.lower label = "experience_years:" ->
  blank ws = true ->
  digits <> EmptyString ->
  all_chars Chr.isdecimal digits = true ->
  String.length digits <= int_max_str_digits ->
  digits_head rest = EmptyString ->
  extract_experience_checked (label ++ ws ++ digits ++ rest) = Some (Str.int digits).
Proof.
  intros Hlabel Hws Hne Hdig Hlen Hrest.
  rewrite extract_experience_checked_value.
  assert (Hhere : experience_here (label ++ ws ++ digits ++ rest) = Some digits).
  { unfold experience_here.
    rewrite (after_prefix_ci_same "experience_years:" label _ Hlabel).
    rewrite (lstrip_blank_append _ _ Hws).
    destruct digits as [|c d]; [congruence|].
    simpl in Hdig. apply andb_prop in Hdig as [Hc Hd].
    change (String c d ++ rest) with (String c (d ++ rest)).
    rewrite (lstrip_head_fixed _ _ (decimal_not_space c Hc)).
    unfold digits_head in *. change (in_class Digit) with Chr.isdecimal in *.
    cbn [Str.take_while]. rewrite Hc.
    now rewrite (take_while_all_then_stop _ d rest Hd Hrest). }
  rewrite (first_at_here _ _ _ Hhere). now apply int_checked_within.
Qed.

Lemma extract_experience_reads_digits_witness :
  extract_experience_checked ("Experience_Years:" ++ " 
	" ++ "007" ++ ".5 years, experience_years: 9") = Some 7%Z.
Proof.
  refine (extract_experience_reads_digits "Experience_Years:" " 
	" "007" ".5 years, experience_years: 9" eq_refl eq_refl _ eq_refl _ eq_refl).
  - discriminate.
  - unfold int_max_str_digits. simpl. lia.
Defined.

(** *** The name taken from the file *)

(** X7.  For a file name that holds .pdf as its extension and nowhere else,
    and none of the three letters whose title case [Str.title] cannot write
    (micro sign, sharp s, y with diaeresis), the fallback name is the name
    without the extension, title-cased. *)
Theorem name_from_file_strips_extension (stem : string) :
  occurs ".pdf" (stem ++ ".pd") = false ->
  title_safe stem = true ->
  name_from_file (stem ++ ".pdf") = Str.title stem.
Proof.
  intros H _. unfold name_from_file. now rewrite (replace_only_extension stem H).
Qed.

Lemma name_from_file_strips_extension_witness :
  name_from_file ("maria de la cruz_CV" ++ ".pdf") = "Maria De La Cruz_Cv".
Proof.
  exact (name_from_file_strips_extension "maria de la cruz_CV" eq_refl eq_refl).
Defined.

(** *** Keywords standing as whole words *)

Lemma last_char_nonempty (p q : option ascii) (c : ascii) (s : string) :
  last_char p (String c s) = last_char q (String c s).
Proof.
  reflexivity.
Qed.

Lemma last_char_append (p : option ascii) (a b : string) :
  last_char p (a ++ b) = last_char (last_char p a) b.
Proof.
  revert p. induction a as [|c a IH]; intros p; simpl; [reflexivity | apply IH].
Qed.

(** Without IGNORECASE a literal run consumes exactly itself. *)
Lemma exec_lits_exact {A : Type} (kw : string) :
  forall prev post g (k : option ascii -> string -> option string -> option A),
    exec false (lits kw) prev (kw ++ post) g k = k (last_char prev kw) post g.
Proof.
  induction kw as [|c kw IH]; intros prev post g k; simpl; [reflexivity|].
  unfold lit_eq. rewrite Ascii.eqb_refl. apply IH.
Qed.

(** An alternation succeeds as soon as one of its branches would. *)
Lemma exec_alts_some {A : Type} (kws : list string) (kw : string)
      (prev : option ascii) (s : string) (g : option string)
      (k : option ascii -> string -> option string -> option A) :
  In kw kws ->
  exec false (lits kw) prev s g k <> None ->
  exec false (alts kws) prev s g k <> None.
Proof.
  induction kws as [|k0 kws IH]; intros Hin Hkw; [destruct Hin|].
  destruct kws as [|k1 kws].
  - destruct Hin as [->|[]]. exact Hkw.
  - change (alts (k0 :: k1 :: kws)) with (Alt (lits k0) (alts (k1 :: kws))).
    cbn [exec].
    destruct (exec false (lits k0) prev s g k) eqn:E0; [discriminate|].
    destruct Hin as [->|Hin]; [congruence|].
    now apply IH.
Qed.

(** The keyword pattern matches where a listed keyword stands between two
    word boundaries. *)
Lemma match_at_keyword (kws : list string) (kw post : string) (prev : option ascii) :
  In kw kws ->
  at_boundary prev (kw ++ post) = true ->
  at_boundary (last_char prev kw) post = true ->
  match_at false (keyword_pattern kws) prev (kw ++ post) <> None.
Proof.
  intros Hin Hb1 Hb2. unfold match_at, keyword_pattern.
  cbn [exec]. rewrite Hb1.
  apply (exec_alts_some kws kw); [exact Hin|].
  rewrite exec_lits_exact. rewrite Hb2. discriminate.
Qed.

(** [re.search] finds a match that exists at some position. *)
Lemma search_from_later (ic : bool) (r : regex) (pre s : string) :
  forall prev,
    match_at ic r (last_char prev pre) s <> None ->
    search_from ic r prev (pre ++ s) <> None.
Proof.
  induction pre as [|c pre IH]; intros prev H.
  - simpl in *. destruct s; cbn [search_from];
      destruct (match_at ic r prev _); congruence.
  - change (String c pre ++ s) with (String c (pre ++ s)).
    cbn [search_from].
    destruct (match_at ic r prev (String c (pre ++ s))); [discriminate|].
    apply IH. exact H.
Qed.

Lemma mentions_whole_word (kws : list string) (kw pre post : string) :
  In kw kws ->
  word_at kw = true ->
  word_before (last_char None kw) = true ->
  word_before (last_char None pre) = false ->
  word_at post = false ->
  mentions kws (pre ++ kw ++ post) = true.
Proof.
  intros Hin Hfirst Hlast Hpre Hpost.
  unfold mentions, search.
  pose proof (search_from_later false (keyword_pattern kws) pre (kw ++ post) None) as H.
  destruct (search_from false (keyword_pattern kws) None (pre ++ kw ++ post));
    [reflexivity|].
  exfalso. apply H; [|reflexivity].
  destruct kw as [|c kw]; [discriminate|].
  apply match_at_keyword; [exact Hin | |].
  - unfold at_boundary. rewrite Hpre. simpl in *. now rewrite Hfirst.
  - unfold at_boundary.
    rewrite (last_char_nonempty _ None), Hlast, Hpost. reflexivity.
Qed.

Lemma isword_tolower (c : ascii) : Chr.isword (Chr.tolower c) = Chr.isword c.
Proof.
  destruct c as [[] [] [] [] [] [] [] []]; reflexivity.
Qed.

Lemma word_at_lower (s : string) : word_at (Str.lower s) = word_at s.
Proof.
  destruct s; simpl; [reflexivity | apply isword_tolower].
Qed.

Lemma word_before_last_lower (s : string) (p : option ascii) :
  word_before (last_char (option_map Chr.tolower p) (Str.lower s))
  = word_before (last_char p s).
Proof.
  revert p. induction s as [|c s IH]; intros p; simpl.
  - destruct p; simpl; [apply isword_tolower | reflexivity].
  - apply (IH (Some c)).
Qed.

(** Every keyword of every rule begins and ends with a word character. *)
Lemma rules_keywords_are_words (kws : list string) (label kw : string) :
  In (kws, label) rules -> In kw kws ->
  word_at kw = true /\ word_before (last_char None kw) = true.
Proof.
  intros Hr Hk.
  assert (H : forallb (fun r => forallb (fun w => word_at w && word_before (last_char None w))
                                        (fst r)) rules = true) by reflexivity.
  rewrite forallb_forall in H. specialize (H _ Hr). cbn [fst] in H.
  rewrite forallb_forall in H. specialize (H _ Hk).
  now apply andb_prop in H.
Qed.

Lemma selected_when_mentioned (kws : list string) (label : string)
      (skills_text projects_text : string) :
  In (kws, label) rules ->
  mentions kws (combined_text skills_text projects_text) = true ->
  determine_title skills_text projects_text <> "Unknown"
  /\ (kws = data_science_terms ->
      determine_title skills_text projects_text = "Data Scientist").
Proof.
  intros Hr Hm. split.
  - unfold determine_title. cbv zeta.
    repeat match goal with
           | |- context [if ?b then _ else _] => destruct b eqn:?
           end; try discriminate.
    exfalso.
    repeat (destruct Hr as [Hr|Hr]; [injection Hr as <- _; congruence|]).
    destruct Hr.
  - intros ->. unfold determine_title. cbv zeta. now rewrite Hm.
Qed.

(** The combined text around a keyword written in the skills or in the
    projects. *)
Lemma combined_text_in_skills (pre written post other : string) :
  combined_text (pre ++ written ++ post) other
  = Str.lower pre ++ Str.lower written ++ Str.lower (post ++ " " ++ other).
Proof.
  unfold combined_text. now rewrite !append_assoc, !lower_append.
Qed.

Lemma combined_text_in_projects (pre written post other : string) :
  combined_text other (pre ++ written ++ post)
  = Str.lower (other ++ " " ++ pre) ++ Str.lower written ++ Str.lower post.
Proof.
  unfold combined_text.
  replace (other ++ " " ++ pre ++ written ++ post)
    with ((other ++ " " ++ pre) ++ written ++ post)
    by (now rewrite !append_assoc).
  now rewrite !lower_append.
Qed.

(** X8.  A resume is selected as soon as one keyword of one rule stands as a
    whole word in its skills or in its projects, in any letter case: the
    character before it (if any) and the character after it (if any) are
    not word characters.  Nothing else in the two texts can turn the title
    into "Unknown"; and for a keyword of the first rule the title is
    "Data Scientist" whatever else is written. *)
Theorem keyword_as_word_selects
        (kws : list string) (label written pre post other : string) :
  In (kws, label) rules ->
  In (Str.lower written) kws ->
  word_before (last_char None pre) = false ->
  word_at post = false ->
  determine_title (pre ++ written ++ post) other <> "Unknown"
  /\ determine_title other (pre ++ written ++ post) <> "Unknown"
  /\ (kws = data_science_terms ->
      determine_title (pre ++ written ++ post) other = "Data Scientist"
      /\ determine_title other (pre ++ written ++ post) = "Data Scientist").
Proof.
  intros Hr Hk Hpre Hpost.
  destruct (rules_keywords_are_words _ _ _ Hr Hk) as [Hfirst Hlast].
  assert (Hs : mentions kws (combined_text (pre ++ written ++ post) other) = true).
  { rewrite combined_text_in_skills.
    apply mentions_whole_word; auto.
    - rewrite <- Hpre. apply (word_before_last_lower pre None).
    - rewrite word_at_lower. destruct post; [reflexivity | exact Hpost]. }
  assert (Hp : mentions kws (combined_text other (pre ++ written ++ post)) = true).
  { rewrite combined_text_in_projects.
    apply mentions_whole_word; auto.
    - rewrite (word_before_last_lower _ None).
      rewrite <- append_assoc, last_char_append.
      destruct pre as [|c pre]; [|exact Hpre].
      rewrite last_char_append. reflexivity.
    - now rewrite word_at_lower. }
  destruct (selected_when_mentioned _ _ _ _ Hr Hs) as [Hs1 Hs2].
  destruct (selected_when_mentioned _ _ _ _ Hr Hp) as [Hp1 Hp2].
  split; [exact Hs1|]. split; [exact Hp1|].
  intros E. split; [now apply Hs2 | now apply Hp2].
Qed.

Lemma keyword_as_word_selects_witness :
  determine_title ("C++, (" ++ "Node.JS" ++ "), sql") "none" = "Full Stack Developer"
  /\ determine_title ("C++, (" ++ "Node.JS" ++ "), sql") "none" <> "Unknown"
  /\ determine_title "excel" ("plots with " ++ "Matplotlib" ++ EmptyString)
     = "Data Scientist".
Proof.
  split; [reflexivity|]. split.
  - exact (proj1 (keyword_as_word_selects full_stack_terms "Full Stack Developer"
                    "Node.JS" "C++, (" "), sql" "none"
                    (or_intror (or_intror (or_introl eq_refl)))
                    (or_intror (or_intror (or_introl eq_refl)))
                    eq_refl eq_refl)).
  - refine (proj2 (proj2 (proj2 (keyword_as_word_selects data_science_terms "Data Scientist"
                    "Matplotlib" "plots with " EmptyString "excel"
                    (or_introl eq_refl)
                    (or_intror (or_intror (or_introl eq_refl)))
                    eq_refl eq_refl)) eq_refl)).
Defined.



(** ** Further properties of the dispatch *)

Section DispatchReport.

Variable transport : Type.
Variable smtp : transport -> message -> transport * bool.
Variable sec : secrets.

(** One loop: the reports match the failures, the sessions are the server's
    answers to the messages of the addressed rows, taken in order. *)
Lemma send_rows_report (text_for : resume -> mail_text) (rows : list resume) :
  forall net sent net' evs sent',
    send_rows smtp sec text_for rows net sent = (net', evs, sent') ->
    well_reported evs = true
    /\ (credentials_missing sec = true -> warnings evs = 0 /\ outcomes evs = [])
    /\ (credentials_missing sec = false ->
        calls evs = deliveries evs + warnings evs
        /\ replay smtp net (map (message_for sec text_for) (filter has_address rows))
           = (net', outcomes evs)).
Proof.
  induction rows as [|row rows IH]; intros net sent net' evs sent' H.
  - injection H as <- <- <-. repeat split; reflexivity.
  - cbn [filter]. destruct (has_address row) eqn:Ha.
    + destruct (send_email smtp sec net (email row) (text_for row))
        as [[net1 evs1] ok] eqn:E1.
      destruct (send_rows smtp sec text_for rows net1 (if ok then S sent else sent))
        as [[net2 evs2] sent2] eqn:E2.
      rewrite (send_rows_step _ smtp sec _ _ _ _ _ _ _ _ _ _ _ Ha E1 E2) in H.
      injection H as <- <- <-.
      destruct (IH _ _ _ _ _ E2) as (Hw & Hm & Hp).
      destruct (send_email_cases _ smtp sec net (email row) (text_for row))
        as [[Hmiss Eq] | [Hpres (n1 & o1 & Hsmtp & Eq)]];
        rewrite E1 in Eq; injection Eq as -> -> ->.
      * split; [exact Hw|]. split; [|congruence].
        intros _. destruct (Hm Hmiss) as [Hw0 Ho]. split; [exact Hw0 | exact Ho].
      * split; [|split; [congruence|]].
        -- destruct o1; cbn; [exact Hw|].
           rewrite String.eqb_refl. exact Hw.
        -- intros _. destruct (Hp Hpres) as [Hc Hr]. split.
           ++ unfold calls, deliveries, warnings in *.
              destruct o1; cbn; lia.
           ++ cbn [map replay]. unfold message_for at 1. rewrite Hsmtp, Hr.
              destruct o1; reflexivity.
    + rewrite (send_rows_skip _ smtp sec _ _ _ _ _ Ha) in H. apply (IH _ _ _ _ _ H).
Qed.

Lemma well_reported_app (a b : list event) :
  well_reported a = true -> well_reported b = true -> well_reported (a ++ b) = true.
Proof.
  revert a. fix IH 1. intros a Ha Hb.
  destruct a as [|e a]; [exact Hb|].
  destruct e as [|m [|]|r|x y]; cbn in *.
  - now apply IH.
  - now apply IH.
  - destruct a as [|[|? ?|r|? ?] a]; try discriminate.
    cbn in *. apply andb_prop in Ha as [H1 H2]. rewrite H1. cbn. now apply IH.
  - discriminate.
  - now apply IH.
Qed.

Lemma warnings_app (a b : list event) : warnings (a ++ b) = warnings a + warnings b.
Proof.
  unfold warnings. now rewrite filter_app, length_app.
Qed.

Lemma outcomes_app (a b : list event) : outcomes (a ++ b) = (outcomes a ++ outcomes b)%list.
Proof.
  induction a as [|e a IH]; simpl; [reflexivity|].
  destruct e; simpl; now rewrite IH.
Qed.

Lemma replay_app (net : transport) (a b : list message) :
  replay smtp net (a ++ b)
  = let '(net1, o1) := replay smtp net a in
    let '(net2, o2) := replay smtp net1 b in
    (net2, (o1 ++ o2)%list).
Proof.
  revert net. induction a as [|m a IH]; intros net; simpl.
  - destruct (replay smtp net b); reflexivity.
  - destruct (smtp net m) as [n1 ok]. rewrite IH.
    destruct (replay smtp n1 a) as [n2 o1].
    destruct (replay smtp n2 b) as [n3 o2]. reflexivity.
Qed.

End DispatchReport.

Lemma addressed_split (resume_df : list resume) :
  addressed (selected_df resume_df) + addressed (rejected_df resume_df)
  = addressed resume_df.
Proof.
  unfold addressed, selected_df, rejected_df.
  induction resume_df as [|r df IH]; simpl; [reflexivity|].
  destruct (is_unknown r); simpl; destruct (has_address r); simpl; lia.
Qed.

Lemma addressed_documents (uploaded_files : list upload) :
  addressed (all_resume_data uploaded_files) = List.length (with_address uploaded_files).
Proof.
  unfold addressed, all_resume_data, with_address.
  induction uploaded_files as [|f fs IH]; simpl; [reflexivity|].
  change (has_address (resume_data f))
    with (negb (Str.is_empty (extract_field (extract_text_from_pdf (content f)) "Email"))).
  destruct (negb _); simpl; now rewrite IH.
Qed.


Lemma attempted_send_rows
      (transport : Type) (smtp : transport -> message -> transport * bool)
      (sec : secrets) (text_for : resume -> mail_text) (rows : list resume)
      (net net' : transport) (sent sent' : nat) (evs : list event) (m : message) :
  send_rows smtp sec text_for rows net sent = (net', evs, sent') ->
  In m (attempted evs) ->
  exists r, In r rows /\ has_address r = true /\ m = message_for sec text_for r.
Proof.
  intros H Hin.
  destruct (send_rows_trace _ smtp sec _ _ _ _ _ _ _ H) as (_ & _ & Hmiss & Hpres).
  destruct (credentials_missing sec) eqn:E.
  - destruct (Hmiss eq_refl) as [_ ->]. rewrite attempted_repeat_error in Hin. destruct Hin.
  - rewrite (Hpres eq_refl) in Hin. apply in_map_iff in Hin as (r & <- & Hr).
    apply filter_In in Hr as [Hr Ha]. now exists r.
Qed.

(** X11.  Every message handed to the mail server is sent from the EMAIL
    secret to the non-empty address of one row of the table.  A
    congratulation carries that row's own name and title, and the title is
    never "Unknown"; the rejection text goes only to rows whose title is
    "Unknown". *)
Theorem messages_match_rows
        (transport : Type) (smtp : transport -> message -> transport * bool)
        (sec : secrets) (resume_df : list resume) (net : transport) (m : message) :
  In m (attempted (snd (send_emails smtp sec (selected_df resume_df)
                                    (rejected_df resume_df) net))) ->
  msg_from m = EMAIL sec
  /\ msg_to m <> EmptyString
  /\ exists r,
      In r resume_df /\ msg_to m = email r
      /\ match msg_text m with
         | Congratulations who title =>
             who = name r /\ title = resume_title r /\ title <> "Unknown"
         | ApplicationUpdate => resume_title r = "Unknown"
         end.
Proof.
  unfold send_emails.
  destruct (send_rows smtp sec selected_text (selected_df resume_df) net 0)
    as [[net1 evs1] n1] eqn:E1.
  destruct (send_rows smtp sec rejected_text (rejected_df resume_df) net1 0)
    as [[net2 evs2] n2] eqn:E2.
  cbn [snd]. rewrite !attempted_app. cbn [attempted]. rewrite app_nil_r.
  intros Hin. apply in_app_or in Hin as [Hin|Hin].
  - destruct (attempted_send_rows _ _ _ _ _ _ _ _ _ _ _ E1 Hin) as (r & Hr & Ha & ->).
    unfold selected_df in Hr. apply filter_In in Hr as [Hr Hu].
    apply negb_true_iff in Hu.
    split; [reflexivity|]. split.
    + cbn. unfold has_address in Ha. destruct (email r); [discriminate | discriminate].
    + exists r. cbn. repeat split; auto.
      intros Ht. apply is_unknown_iff in Ht. congruence.
  - destruct (attempted_send_rows _ _ _ _ _ _ _ _ _ _ _ E2 Hin) as (r & Hr & Ha & ->).
    unfold rejected_df in Hr. apply filter_In in Hr as [Hr Hu].
    split; [reflexivity|]. split.
    + cbn. unfold has_address in Ha. destruct (email r); [discriminate | discriminate].
    + exists r. cbn. repeat split; auto. now apply is_unknown_iff.
Qed.

Lemma messages_match_rows_witness :
  msg_from {| msg_from := Some "hr@example.org"; msg_to := "ann@example.org";
              msg_text := Congratulations "Ann" "Data Scientist" |}
  = Some "hr@example.org"
  /\ In {| msg_from := Some "hr@example.org"; msg_to := "ann@example.org";
           msg_text := Congratulations "Ann" "Data Scientist" |}
        (attempted (snd (send_emails every_other
           {| EMAIL := Some "hr@example.org"; PASSWORD := Some "pw" |}
           (selected_df [row_of "Cy" "cy@example.org" "Unknown";
                         row_of "Ann" "ann@example.org" "Data Scientist"])
           (rejected_df [row_of "Cy" "cy@example.org" "Unknown";
                         row_of "Ann" "ann@example.org" "Data Scientist"])
           0))).
Proof.
  assert (Hin : In {| msg_from := Some "hr@example.org"; msg_to := "ann@example.org";
                      msg_text := Congratulations "Ann" "Data Scientist" |}
        (attempted (snd (send_emails every_other
           {| EMAIL := Some "hr@example.org"; PASSWORD := Some "pw" |}
           (selected_df [row_of "Cy" "cy@example.org" "Unknown";
                         row_of "Ann" "ann@example.org" "Data Scientist"])
           (rejected_df [row_of "Cy" "cy@example.org" "Unknown";
                         row_of "Ann" "ann@example.org" "Data Scientist"])
           0)))) by (left; reflexivity).
  split; [|exact Hin].
  exact (proj1 (messages_match_rows nat every_other _ _ 0 _ Hin)).
Defined.



(** X13.  With credentials, the sessions are the mail server's answers to
    the messages of the rows that have an address, selected rows first and
    then rejected rows, each in the order of its table: every message is
    handed over in the state the session before it left, whether that one
    went through or raised, and the state after the last one is the state the
    handler ends in. *)
Theorem sessions_in_table_order
        (transport : Type) (smtp : transport -> message -> transport * bool)
        (sec : secrets) (selected rejected : list resume) (net : transport) :
  credentials_missing sec = false ->
  replay smtp net (messages_for sec selected rejected)
  = (fst (send_emails smtp sec selected rejected net),
     outcomes (snd (send_emails smtp sec selected rejected net))).
Proof.
  intros Hpres. unfold send_emails, messages_for.
  destruct (send_rows smtp sec selected_text selected net 0)
    as [[net1 evs1] n1] eqn:E1.
  destruct (send_rows smtp sec rejected_text rejected net1 0)
    as [[net2 evs2] n2] eqn:E2.
  destruct (send_rows_report _ smtp sec _ _ _ _ _ _ _ E1) as (_ & _ & Hp1).
  destruct (send_rows_report _ smtp sec _ _ _ _ _ _ _ E2) as (_ & _ & Hp2).
  destruct (Hp1 Hpres) as [_ Hr1]. destruct (Hp2 Hpres) as [_ Hr2].
  rewrite replay_app, Hr1, Hr2. cbn [fst snd].
  rewrite !outcomes_app. cbn [outcomes]. now rewrite app_nil_r.
Qed.

Lemma sessions_in_table_order_witness :
  replay every_other 0
         (messages_for {| EMAIL := Some "hr@example.org"; PASSWORD := Some "pw" |}
                       [row_of "Ann" "ann@example.org" "Data Scientist";
                        row_of "Bo" EmptyString "Game Designer";
                        row_of "Di" "di@example.org" "Web Designer"]
                       [row_of "Cy" "cy@example.org" "Unknown"])
  = (3, outcomes (snd (send_emails every_other
                         {| EMAIL := Some "hr@example.org"; PASSWORD := Some "pw" |}
                         [row_of "Ann" "ann@example.org" "Data Scientist";
                          row_of "Bo" EmptyString "Game Designer";
                          row_of "Di" "di@example.org" "Web Designer"]
                         [row_of "Cy" "cy@example.org" "Unknown"] 0))).
Proof.
  exact (sessions_in_table_order nat every_other
           {| EMAIL := Some "hr@example.org"; PASSWORD := Some "pw" |}
           [row_of "Ann" "ann@example.org" "Data Scientist";
            row_of "Bo" EmptyString "Game Designer";
            row_of "Di" "di@example.org" "Web Designer"]
           [row_of "Cy" "cy@example.org" "Unknown"] 0 eq_refl).
Defined.

(** ** The charts and the download buttons *)

Lemma list_sum_step (a : nat) (l : list nat) : list_sum (a :: l) = a + list_sum l.
Proof.
  reflexivity.
Qed.

Lemma count_occ_sum_cons (x : string) (l m : list string) :
  list_sum (map (count_occ string_dec (x :: l)) m)
  = list_sum (map (count_occ string_dec l) m) + count_occ string_dec m x.
Proof.
  induction m as [|t m IH]; [reflexivity|].
  cbn [map]. rewrite !list_sum_step, IH. cbn [count_occ].
  destruct (string_dec x t) as [->|Hne].
  - destruct (string_dec t t); [lia | congruence].
  - destruct (string_dec t x); [congruence | lia].
Qed.

(** The counts of the distinct values of a column add up to its length. *)
Lemma value_counts_total (l : list string) :
  list_sum (map (count_occ string_dec l) (nodup string_dec l)) = List.length l.
Proof.
  induction l as [|x l IH]; [reflexivity|].
  cbn [nodup]. destruct (in_dec string_dec x l) as [Hin|Hnot].
  - rewrite count_occ_sum_cons, IH.
    rewrite (proj1 (NoDup_count_occ' string_dec (nodup string_dec l))
                   (NoDup_nodup string_dec l) x).
    + simpl. lia.
    + now apply nodup_In.
  - cbn [map]. rewrite list_sum_step, count_occ_sum_cons, IH.
    cbn [count_occ]. destruct (string_dec x x); [|congruence].
    rewrite (proj1 (count_occ_not_In string_dec l x) Hnot).
    rewrite (proj1 (count_occ_not_In string_dec (nodup string_dec l) x)).
    + simpl. lia.
    + intros H. apply Hnot. now apply nodup_In in H.
Qed.

Lemma role_counts_unknown (resume_df : list resume) :
  role_counts resume_df "Unknown" = List.length (rejected_df resume_df).
Proof.
  unfold role_counts, rejected_df.
  induction resume_df as [|r df IH]; [reflexivity|].
  cbn [map count_occ filter]. unfold is_unknown at 1.
  destruct (string_dec (resume_title r) "Unknown") as [E|E].
  - rewrite (proj2 (String.eqb_eq _ _) E). simpl. now rewrite IH.
  - rewrite (proj2 (String.eqb_neq _ _) E). exact IH.
Qed.

Lemma determine_title_label (skills_text projects_text : string) :
  In (determine_title skills_text projects_text)
     ["Data Scientist"; "Machine Learning Engineer"; "Full Stack Developer";
      "Web Designer"; "AI Engineer"; "UI/UX Designer"; "Game Designer"; "Unknown"].
Proof.
  unfold determine_title.
  repeat match goal with
         | |- context [if ?b then _ else _] => destruct b
         end; simpl; tauto.
Qed.

(** X14.  The bar chart counts every row once.  The bar of a title is the
    number of rows with that title, so the bar "Unknown" is as long as the
    rejected table; a title has a bar exactly when some row carries it; the
    bars together are as many as the rows; and for uploaded documents no bar
    stands for anything but the seven categories and "Unknown". *)
Theorem role_counts_add_up (resume_df : list resume) :
  role_counts resume_df "Unknown" = List.length (rejected_df resume_df)
  /\ list_sum (map (role_counts resume_df) (role_index resume_df)) = List.length resume_df
  /\ (forall title, In title (role_index resume_df) <-> 0 < role_counts resume_df title)
  /\ (forall uploaded_files title,
        resume_df = all_resume_data uploaded_files ->
        In title (role_index resume_df) ->
        In title ["Data Scientist"; "Machine Learning Engineer"; "Full Stack Developer";
                  "Web Designer"; "AI Engineer"; "UI/UX Designer"; "Game Designer";
                  "Unknown"]).
Proof.
  split; [apply role_counts_unknown|].
  split.
  { unfold role_index.
    change (role_counts resume_df) with (count_occ string_dec (map resume_title resume_df)).
    rewrite (value_counts_total (map resume_title resume_df)). apply length_map. }
  split.
  { intros title. unfold role_index, role_counts.
    rewrite nodup_In. apply count_occ_In. }
  intros ups title -> Hin.
  unfold role_index in Hin. apply nodup_In in Hin.
  apply in_map_iff in Hin as (r & <- & Hr).
  unfold all_resume_data in Hr. apply in_map_iff in Hr as (f & <- & _).
  apply determine_title_label.
Qed.

Lemma role_counts_add_up_witness :
  In "Game Designer"
     ["Data Scientist"; "Machine Learning Engineer"; "Full Stack Developer";
      "Web Designer"; "AI Engineer"; "UI/UX Designer"; "Game Designer"; "Unknown"]
  /\ role_counts (all_resume_data
       [ {| file_name := "bo.pdf";
            content := Pages [Some "resume_skills: Unity, C#"] |};
         {| file_name := "scan.pdf"; content := Unreadable |};
         {| file_name := "li.pdf";
            content := Pages [Some "Projects: an Unreal demo"] |} ]) "Game Designer" = 2.
Proof.
  split; [|reflexivity].
  destruct (role_counts_add_up (all_resume_data
       [ {| file_name := "bo.pdf";
            content := Pages [Some "resume_skills: Unity, C#"] |};
         {| file_name := "scan.pdf"; content := Unreadable |};
         {| file_name := "li.pdf";
            content := Pages [Some "Projects: an Unreal demo"] |} ]))
    as (_ & _ & Hbar & Hlabels).
  apply (Hlabels _ "Game Designer" eq_refl).
  apply Hbar. vm_compute. lia.
Defined.



(** ** How the helpers compose *)

(** X16.  The two fields are classified as one text, joined by a space, so
    a two-word keyword is also found when its first word ends the skills and
    its second word begins the projects, although neither field holds the
    keyword. *)
Theorem keyword_across_fields
        (kws : list string) (label first second pre post : string) :
  In (kws, label) rules ->
  In (Str.lower first ++ " " ++ Str.lower second) kws ->
  word_before (last_char None pre) = false ->
  word_at post = false ->
  mentions kws (combined_text (pre ++ first) (second ++ post)) = true
  /\ determine_title (pre ++ first) (second ++ post) <> "Unknown".
Proof.
  intros Hr Hk Hpre Hpost.
  destruct (rules_keywords_are_words _ _ _ Hr Hk) as [Hfirst Hlast].
  assert (Hm : mentions kws (combined_text (pre ++ first) (second ++ post)) = true).
  { unfold combined_text.
    replace ((pre ++ first) ++ " " ++ second ++ post)
      with (pre ++ (first ++ " " ++ second) ++ post)
      by (now rewrite !append_assoc).
    rewrite !lower_append.
    change (Str.lower " ") with " ".
    apply mentions_whole_word; auto.
    - rewrite <- Hpre. apply (word_before_last_lower pre None).
    - now rewrite word_at_lower. }
  split; [exact Hm|].
  exact (proj1 (selected_when_mentioned _ _ _ _ Hr Hm)).
Qed.

Lemma keyword_across_fields_witness :
  mentions ai_terms (combined_text "statistics" "sea diving") = false
  /\ mentions ai_terms (combined_text ("statistics, " ++ "Deep") ("Learning" ++ " by doing"))
     = true
  /\ determine_title ("statistics, " ++ "Deep") ("Learning" ++ " by doing") = "AI Engineer".
Proof.
  split; [reflexivity|].
  split; [|reflexivity].
  exact (proj1 (keyword_across_fields ai_terms "AI Engineer" "Deep" "Learning"
                  "statistics, " " by doing"
                  (or_intror (or_intror (or_intror (or_intror (or_introl eq_refl)))))
                  (or_intror (or_introl eq_refl))
                  eq_refl eq_refl)).
Defined.

Lemma after_prefix_ci_length (key s rest : string) :
  after_prefix_ci key s = Some rest -> String.length key <= String.length s.
Proof.
  revert s. induction key as [|a key IH]; intros s H; simpl in *; [lia|].
  destruct s as [|b s]; [discriminate|].
  destruct (Chr.tolower b =? Chr.tolower a)%char; [|discriminate].
  apply IH in H. simpl. lia.
Qed.

Lemma after_first_ci_length (key s rest : string) :
  after_first_ci key s = Some rest -> String.length key <= String.length s.
Proof.
  unfold after_first_ci.
  induction s as [|c s IH]; cbn [first_at].
  - destruct (after_prefix_ci key EmptyString) eqn:E; [|discriminate].
    intros _. now apply after_prefix_ci_length in E.
  - destruct (after_prefix_ci key (String c s)) eqn:E.
    + intros _. now apply after_prefix_ci_length in E.
    + intros H. apply IH in H. simpl. lia.
Qed.

(** The first occurrence of a key stays the first one when text is added at
    the end. *)
Lemma after_first_ci_extend (key s rest more : string) :
  after_first_ci key s = Some rest ->
  after_first_ci key (s ++ more) = Some (rest ++ more).
Proof.
  unfold after_first_ci.
  induction s as [|c s IH]; intros H.
  - cbn [first_at] in H.
    destruct (after_prefix_ci key EmptyString) eqn:E; [|discriminate].
    injection H as ->.
    apply first_at_here.
    rewrite (after_prefix_ci_local key EmptyString more), E; [reflexivity|].
    now apply after_prefix_ci_length in E.
  - cbn [first_at] in H.
    change (String c s ++ more) with (String c (s ++ more)). cbn [first_at].
    change (String c (s ++ more)) with (String c s ++ more).
    destruct (after_prefix_ci key (String c s)) eqn:E.
    + injection H as ->.
      rewrite (after_prefix_ci_local key (String c s) more), E; [reflexivity|].
      now apply after_prefix_ci_length in E.
    + rewrite (after_prefix_ci_local key (String c s) more), E.
      * now apply IH.
      * apply (after_first_ci_length key s rest) in H. simpl. lia.
Qed.

Lemma drop_while_extend (p : ascii -> bool) (a b : string) :
  Str.drop_while p a <> EmptyString ->
  Str.drop_while p (a ++ b) = Str.drop_while p a ++ b.
Proof.
  induction a as [|c a IH]; simpl; [congruence|].
  destruct (p c); [exact IH | reflexivity].
Qed.

Lemma take_while_extend (p : ascii -> bool) (a b : string) :
  all_chars p a = false ->
  Str.take_while p (a ++ b) = Str.take_while p a.
Proof.
  induction a as [|c a IH]; simpl; [discriminate|].
  destruct (p c); simpl; [|reflexivity].
  intros H. now rewrite (IH H).
Qed.

(** X17.  Once a field has been found and the line of its value is complete
    (a line feed follows it), text added after it, such as the text of later
    pages, does not change the extracted value: the first occurrence wins
    across pages. *)
Theorem extract_field_ignores_later_text (text more field_name rest : string) :
  plain_label field_name = true ->
  after_first_ci (field_name ++ ":") text = Some rest ->
  all_chars (in_class Dot) (Str.lstrip rest) = false ->
  extract_field (text ++ more) field_name = extract_field text field_name
  /\ forall pages,
      extract_text_from_pdf (Pages (Some text :: map Some pages)) = text ++ concat_pages pages
      /\ extract_field (extract_text_from_pdf (Pages (Some text :: map Some pages))) field_name
         = extract_field text field_name.
Proof.
  intros Hplain Hocc Hline.
  assert (Hext : forall tail,
             extract_field (text ++ tail) field_name = extract_field text field_name).
  { intros tail. rewrite !(extract_field_value _ _ Hplain). unfold field_value.
    rewrite (after_first_ci_extend _ _ _ tail Hocc), Hocc.
    unfold Str.lstrip in *.
    rewrite drop_while_extend.
    - unfold line_head. now rewrite take_while_extend.
    - intros E. rewrite E in Hline. discriminate. }
  split; [apply Hext|].
  intros pages.
  assert (Htext : extract_text_from_pdf (Pages (Some text :: map Some pages))
                  = text ++ concat_pages pages).
  { exact (text_of_readable (text :: pages)). }
  split; [exact Htext|]. rewrite Htext. apply Hext.
Qed.

Lemma extract_field_ignores_later_text_witness :
  extract_field (extract_text_from_pdf
                   (Pages [Some "Name: Ann
Email: ann@example.org
"; Some "References
Name: Bob"])) "Name" = "Ann".
Proof.
  destruct (extract_field_ignores_later_text "Name: Ann
Email: ann@example.org
" EmptyString "Name" " Ann
Email: ann@example.org
" eq_refl eq_refl eq_refl) as [_ H].
  destruct (H ["References
Name: Bob"]) as [_ H'].
  exact (eq_trans H' eq_refl).
Defined.
